(** * telemeter: the metrics write endpoint (pkg/http/server/server.go)

    A shallow embedding of [Server.Post] and [Server.decodeAndStoreMetrics].
    The handler thread and the goroutine it starts are modelled as a small
    transition system over the unbuffered channel [errCh] and the deadline
    context; the goroutine's body is the function [decodeAndStoreMetrics].
    Calls into collaborators are recorded in a trace of events. *)

From Stdlib Require Import List String Ascii ZArith Bool Arith Lia.
From Stdlib Require QArith.
Import ListNotations.
Open Scope string_scope.
Open Scope list_scope.

(** ** Go values shared by the packages *)

(** Go's [error] interface values that the server can tell apart.  [io_EOF] is
    the sentinel [io.EOF]; [ErrWriteLimitReached] is the string-based error type
    of package ratelimited (the conversion [ratelimited.ErrWriteLimitReached(k)]
    builds it); [errorOther] stands for every other dynamic type. Interface
    equality [==] compares dynamic type and value, which is constructor and
    argument here. *)
Inductive error : Type :=
| io_EOF
| ErrWriteLimitReached (key : string)
| errorOther (msg : string).

Definition error_eqb (a b : error) : bool :=
  match a, b with
  | io_EOF, io_EOF => true
  | ErrWriteLimitReached k, ErrWriteLimitReached k' => String.eqb k k'
  | errorOther m, errorOther m' => String.eqb m m'
  | _, _ => false
  end.

(** A [context.Context] as the callee sees it: whether [Done()] is closed when
    it looks. *)
Definition Context := bool.

(** A context whose deadline has not passed and that nobody cancelled. *)
Definition live : Context := false.

(** [contains s sub] is Go's [strings.Contains]. *)
Fixpoint contains (s sub : string) : bool :=
  if String.prefix sub s then true
  else match s with
       | EmptyString => false
       | String _ s' => contains s' sub
       end.

Module ratelimited.

(** Modelled from the spec: package ratelimited is not among the sources. The
    spec says only that the error for partition key P has a message in which
    P occurs; the fixed words in front of the key are the model's. *)
Definition ErrWriteLimitReached_Error (key : string) : string :=
  ("write limit reached for key " ++ key)%string.

End ratelimited.

(** [err.Error()] *)
Definition error_Error (e : error) : string :=
  match e with
  | io_EOF => "EOF"
  | ErrWriteLimitReached key => ratelimited.ErrWriteLimitReached_Error key
  | errorOther msg => msg
  end.

Module clientmodel.

Inductive MetricType := COUNTER | GAUGE | SUMMARY | UNTYPED | HISTOGRAM.

(** One sample: its label pairs and timestamp. Sample values are floats and
    play no part in the control flow modelled here. *)
Record Metric := {
  Label : list (string * string);
  TimestampMs : Z
}.

(** The protobuf message: optional fields are nil-able pointers. *)
Record MetricFamily := {
  Name : option string;
  Help : option string;
  Type_ : option MetricType;
  Metrics : list Metric
}.

(** [&clientmodel.MetricFamily{}] *)
Definition zero : MetricFamily :=
  {| Name := None; Help := None; Type_ := None; Metrics := [] |}.

Definition GetName (f : MetricFamily) : string :=
  match Name f with Some n => n | None => "" end.

End clientmodel.
Import clientmodel.

Module expfmt.

(** What one call of [Decode] will do: fill the slot and return nil, or
    return an error. *)
Inductive DecodeStep :=
| Yield (f : MetricFamily)
| Fail (e : error).

(** A decoder bound to a body is the sequence of results its successive
    [Decode] calls produce; once the sequence is used up every further call
    reports [io.EOF]. *)
Definition Decoder := list DecodeStep.

(** [decoder.Decode(v)]: the decoder after the call, the contents of [*v]
    after the call, and the error. A failing call leaves [*v] as it was. *)
Definition Decode (d : Decoder) (v : MetricFamily)
  : Decoder * MetricFamily * option error :=
  match d with
  | [] => ([], v, Some io_EOF)
  | Yield f :: d' => (d', f, None)
  | Fail e :: d' => (d', v, Some e)
  end.

End expfmt.
Import expfmt.

Module metricfamily.

(** [Transformer.Transform(family) (ok bool, err error)]: the family after
    the call (the pass may rewrite it in place), whether to keep it, and the
    error. *)
Definition Transformer := MetricFamily -> MetricFamily * bool * option error.

(** Modelled from the spec: [MultiTransformer] is not among the sources. It is
    an ordered chain of passes; [With] adds a pass at the end. *)
Record MultiTransformer := { transformers : list Transformer }.

Definition empty : MultiTransformer := {| transformers := [] |}.

Definition With (a : MultiTransformer) (t : Transformer) : MultiTransformer :=
  {| transformers := transformers a ++ [t] |}.

(** Modelled from the spec: the chain applies its passes in order; a pass
    that reports an error aborts the chain with that error, a pass that drops
    the family ends the chain. *)
Fixpoint TransformAll (ts : list Transformer) (family : MetricFamily)
  : MetricFamily * bool * option error :=
  match ts with
  | [] => (family, true, None)
  | t :: ts' =>
      match t family with
      | (family', _, Some err) => (family', false, Some err)
      | (family', false, None) => (family', false, None)
      | (family', true, None) => TransformAll ts' family'
      end
  end.

Definition Transform (a : MultiTransformer) : Transformer :=
  TransformAll (transformers a).

(** Modelled from the spec: [Filter] is not among the sources. It is a single
    traversal of the batch that applies the chain to each family; it returns
    only an error, so a dropped family becomes a nil slot of the slice it was
    given, and the first error ends the traversal. *)
Fixpoint Filter (families : list MetricFamily) (filter : Transformer)
  : list (option MetricFamily) * option error :=
  match families with
  | [] => ([], None)
  | family :: rest =>
      match filter family with
      | (family', _, Some err) => (Some family' :: map Some rest, Some err)
      | (family', ok, None) =>
          let slot := if ok then Some family' else None in
          let (rest', err) := Filter rest filter in
          (slot :: rest', err)
      end
  end.

(** Adds [f] to a packed batch: merged into the family of the same name when
    there is one, at the end otherwise. *)
Fixpoint merge (f : MetricFamily) (packed : list MetricFamily)
  : list MetricFamily :=
  match packed with
  | [] => [f]
  | g :: packed' =>
      if String.eqb (GetName g) (GetName f)
      then {| Name := Name g; Help := Help g; Type_ := Type_ g;
              Metrics := Metrics g ++ Metrics f |} :: packed'
      else g :: merge f packed'
  end.

(** Modelled from the spec: [Pack] is not among the sources. It brings the
    filtered batch into its storable form: the slots the filter emptied are
    removed and families with the same name are merged; it cannot fail, and
    on a batch without same-named families it changes nothing. *)
Definition Pack (families : list (option MetricFamily)) : list MetricFamily :=
  fold_left
    (fun packed slot =>
       match slot with
       | None => packed
       | Some f => merge f packed
       end)
    families [].

End metricfamily.
Import metricfamily.

Module store.

Record PartitionedMetrics := {
  PartitionKey : string;
  Families : list MetricFamily
}.

(** [Store.WriteMetrics(ctx, pm) error]: the answer of the storage layer to
    this write. *)
Definition Store := Context -> PartitionedMetrics -> option error.

End store.
Import store.

Module http.

Definition StatusOK : Z := 200.
Definition StatusMethodNotAllowed : Z := 405.
Definition StatusTooManyRequests : Z := 429.
Definition StatusInternalServerError : Z := 500.

(** Request headers under their canonical keys. *)
Definition Header := list (string * string).

(** [h.Get(key)]: the first value under [key], or the empty string. *)
Fixpoint Get (h : Header) (key : string) : string :=
  match h with
  | [] => ""
  | (k, v) :: h' => if String.eqb k key then v else Get h' key
  end.

Record Request := {
  Method : string;
  Headers : Header;
  Body : string
}.

(** What the handler has written so far: the status line, if any, and the
    body bytes. *)
Record ResponseWriter := {
  status : option Z;
  body : string
}.

Definition fresh : ResponseWriter := {| status := None; body := "" |}.

(** [w.WriteHeader(code)]: only the first call sets the status. *)
Definition WriteHeader (w : ResponseWriter) (code : Z) : ResponseWriter :=
  match status w with
  | Some _ => w
  | None => {| status := Some code; body := body w |}
  end.

Definition newline : string := String "010"%char "".

(** [http.Error(w, msg, code)]: the status, then the message and a newline. *)
Definition Error (w : ResponseWriter) (msg : string) (code : Z)
  : ResponseWriter :=
  let w := WriteHeader w code in
  {| status := status w; body := (body w ++ msg ++ newline)%string |}.

(** The status the client sees once the handler has returned: a handler that
    wrote nothing answers 200. *)
Definition sent (w : ResponseWriter) : Z :=
  match status w with
  | Some code => code
  | None => StatusOK
  end.

End http.

Module validate.

(** [Validator.Validate(ctx, req) (string, metricfamily.Transformer, error)] *)
Definition Validator :=
  Context -> http.Request -> string * Transformer * option error.

End validate.

(** ** The instrumented round tripper (pkg/http/client.go) *)

Module utf8.

(** A byte within [lo, hi]. *)
Definition within (lo hi : N) (a : ascii) : bool :=
  (lo <=? N_of_ascii a)%N && (N_of_ascii a <=? hi)%N.

(** A continuation byte, 0x80 to 0xBF. *)
Definition continuation (a : ascii) : bool := within 128 191 a.

(** [utf8.ValidString(s)]: the bytes of [s] are a sequence of well-formed
    UTF-8 encodings; over-long forms, surrogate halves and values above
    U+10FFFF are not well-formed. *)
Fixpoint ValidString (s : string) : bool :=
  match s with
  | EmptyString => true
  | String a rest =>
      let b := N_of_ascii a in
      if (b <? 128)%N then ValidString rest
      else if within 194 223 a then
        match rest with
        | String c1 rest1 => continuation c1 && ValidString rest1
        | _ => false
        end
      else if within 224 239 a then
        match rest with
        | String c1 (String c2 rest2) =>
            (if (b =? 224)%N then within 160 191 c1
             else if (b =? 237)%N then within 128 159 c1
             else continuation c1)
            && continuation c2 && ValidString rest2
        | _ => false
        end
      else if within 240 244 a then
        match rest with
        | String c1 (String c2 (String c3 rest3)) =>
            (if (b =? 240)%N then within 144 191 c1
             else if (b =? 244)%N then within 128 143 c1
             else continuation c1)
            && continuation c2 && continuation c3 && ValidString rest3
        | _ => false
        end
      else false
  end.

End utf8.

Module prometheus.

(** What a call that may panic gives. *)
Inductive Result (A : Type) : Type :=
| Ok (a : A)
| Panic (why : string).
Arguments Ok {A} a.
Arguments Panic {A} why.

Definition bind {A B : Type} (r : Result A) (k : A -> Result B) : Result B :=
  match r with
  | Ok a => k a
  | Panic why => Panic why
  end.

(** Seconds: the bucket bounds are decimal literals that are only compared,
    and float64 keeps their order. *)
Definition seconds := QArith_base.Q.

Definition decimal (digits : Z) (scale : positive) : seconds :=
  QArith_base.Qmake digits scale.

Definition below (a b : seconds) : bool := negb (QArith_base.Qle_bool b a).

Fixpoint increasing (bounds : list seconds) : bool :=
  match bounds with
  | a :: (b :: _) as rest => below a b && increasing rest
  | _ => true
  end.

(** [prometheus.DefBuckets] *)
Definition DefBuckets : list seconds :=
  [decimal 5 1000; decimal 1 100; decimal 25 1000; decimal 5 100;
   decimal 1 10; decimal 25 100; decimal 5 10; decimal 1 1;
   decimal 25 10; decimal 5 1; decimal 10 1].

Inductive Kind := GaugeKind | CounterKind | HistogramKind.

(** [GaugeOpts], [CounterOpts], [HistogramOpts] as far as the file fills
    them. *)
Record Opts := {
  Name : string;
  Help : string;
  Buckets : list seconds
}.

(** A metric vector: its options, its variable labels in the order of the
    declaration, and the labels that have been curried with their values. *)
Record Vec := {
  kind : Kind;
  opts : Opts;
  labelNames : list string;
  curried : list (string * string)
}.

(** A [Registerer] is nil or a [*prometheus.Registry], which is modelled by the
    names of the collectors registered with it; none of them carries constant
    labels, as none of this file's does. *)
Definition Registerer := option (list string).

(** [promauto.With(reg).New...Vec(opts, labelNames)]: builds the vector and,
    unless [reg] is nil, registers it with [MustRegister]. The names and
    labels of this file are well-formed, so registration fails, and panics,
    exactly when a collector of the same name is registered already. *)
Definition NewVec (k : Kind) (reg : Registerer) (o : Opts)
  (labels : list string) : Result (Registerer * Vec) :=
  let vec := {| kind := k; opts := o; labelNames := labels; curried := [] |} in
  match reg with
  | None => Ok (None, vec)
  | Some names =>
      if existsb (String.eqb (Name o)) names
      then Panic "duplicate metrics collector registration attempted"
      else Ok (Some (names ++ [Name o]), vec)
  end.

(** The variable labels that still need a value. *)
Definition open (v : Vec) : list string :=
  filter (fun l => negb (existsb (String.eqb l) (map fst (curried v))))
         (labelNames v).

(** One labelled child of a vector. *)
Record Child := {
  metric : string;
  labels : list (string * string)
}.

(** [v.WithLabelValues(lvs...)]: panics unless there is one value for each
    open label and every value is valid UTF-8; the first child of a histogram
    is built with [newHistogram], which panics unless the bucket bounds
    increase strictly. *)
Definition WithLabelValues (v : Vec) (lvs : list string) : Result Child :=
  if negb (Nat.eqb (List.length lvs) (List.length (open v))) then
    Panic "inconsistent label cardinality"
  else if negb (forallb utf8.ValidString lvs) then
    Panic "label value is not valid UTF-8"
  else
    match kind v with
    | HistogramKind =>
        if increasing (Buckets (opts v))
        then Ok {| metric := Name (opts v);
                   labels := curried v ++ combine (open v) lvs |}
        else Panic "histogram buckets must be in increasing order"
    | _ => Ok {| metric := Name (opts v);
                 labels := curried v ++ combine (open v) lvs |}
    end.

(** [v.MustCurryWith(labels)]: panics unless every label is an open label of
    the vector. *)
Definition MustCurryWith (v : Vec) (ls : list (string * string)) : Result Vec :=
  if forallb (fun l => existsb (String.eqb (fst l)) (open v)) ls
  then Ok {| kind := kind v; opts := opts v; labelNames := labelNames v;
             curried := curried v ++ ls |}
  else Panic "label name is not defined or already curried".

End prometheus.

Module promhttp.

Import prometheus.

(** [child.Observe(t)] as a record of what was observed. *)
Definition Observation : Type := Child * seconds.

(** A hook of [InstrumentTrace]: nil, or a function of the seconds since the
    request began. *)
Definition Hook := option (seconds -> Result Observation).

Record InstrumentTrace := {
  GotConn : Hook;
  PutIdleConn : Hook;
  GotFirstResponseByte : Hook;
  Got100Continue : Hook;
  DNSStart : Hook;
  DNSDone : Hook;
  ConnectStart : Hook;
  ConnectDone : Hook;
  TLSHandshakeStart : Hook;
  TLSHandshakeDone : Hook;
  WroteHeaders : Hook;
  Wait100Continue : Hook;
  WroteRequest : Hook
}.

(** What one of promhttp's wrappers records around the next round tripper. *)
Inductive Instrument :=
| InFlight (gauge : Child)
| Counter (counter : Vec)
| Trace (it : InstrumentTrace)
| Duration (obs : Vec).

(** An [http.RoundTripper]: a transport of the caller's, known by a name and
    by whether its type has a method [CloseIdleConnections]; one of
    promhttp's wrappers, a [RoundTripperFunc], which has no such method; or
    this package's struct of an idle-connection closer and a round tripper. *)
Inductive RoundTripper :=
| Transport (name : string) (closesIdle : bool)
| RoundTripperFunc (i : Instrument) (next : RoundTripper)
| transportWithIdleConnectionCloser (ic : RoundTripper) (rt : RoundTripper).

(** [checkLabels]: the labels a counter or observer may be partitioned by are
    code and method; any other open label panics. *)
Definition checkLabels (v : Vec) : bool :=
  forallb (fun l => String.eqb l "code" || String.eqb l "method") (open v).

Definition InstrumentRoundTripperInFlight (gauge : Child) (next : RoundTripper)
  : RoundTripper :=
  RoundTripperFunc (InFlight gauge) next.

Definition InstrumentRoundTripperCounter (counter : Vec) (next : RoundTripper)
  : Result RoundTripper :=
  if checkLabels counter then Ok (RoundTripperFunc (Counter counter) next)
  else Panic "metric partitioned with non-supported labels".

Definition InstrumentRoundTripperTrace (it : InstrumentTrace)
  (next : RoundTripper) : RoundTripper :=
  RoundTripperFunc (Trace it) next.

Definition InstrumentRoundTripperDuration (obs : Vec) (next : RoundTripper)
  : Result RoundTripper :=
  if checkLabels obs then Ok (RoundTripperFunc (Duration obs) next)
  else Panic "metric partitioned with non-supported labels".

End promhttp.

Module telemeter_http.

Import prometheus promhttp.

Notation "x <- r ;; k" := (bind r (fun x => k))
  (at level 61, r at next level, right associativity).
Notation "' pat <- r ;; k" := (bind r (fun x => let 'pat := x in k))
  (at level 61, pat pattern, r at next level, right associativity).

(** [next.(idleConnectionCloser)]: the value when its type has the method. *)
Definition idleConnectionCloser (next : RoundTripper) : option RoundTripper :=
  match next with
  | Transport _ true => Some next
  | Transport _ false => None
  | RoundTripperFunc _ _ => None
  | transportWithIdleConnectionCloser _ _ => Some next
  end.

(** The hook of lines 53-72 for one event of one histogram. *)
Definition observe (vec : Vec) (event clientName : string)
  : seconds -> Result Observation :=
  fun t =>
    child <- WithLabelValues vec [event; clientName] ;;
    Ok (child, t).

Definition NewInstrumentedRoundTripper (reg : Registerer) (clientName : string)
  (next : RoundTripper) : Result (Registerer * RoundTripper) :=
  '(reg, inFlightGaugeVec) <-
    NewVec GaugeKind reg
      {| Name := "client_in_flight_requests";
         Help := "A gauge of in-flight requests for the wrapped client.";
         Buckets := [] |}
      ["client"] ;;
  '(reg, counterVec) <-
    NewVec CounterKind reg
      {| Name := "client_api_requests_total";
         Help := "A counter for requests from the wrapped client.";
         Buckets := [] |}
      ["code"; "method"; "client"] ;;
  '(reg, dnsLatencyVec) <-
    NewVec HistogramKind reg
      {| Name := "dns_duration_seconds";
         Help := "Trace dns latency histogram.";
         Buckets := [decimal 5 1000; decimal 1 100; decimal 25 1000;
                     decimal 5 100] |}
      ["event"; "client"] ;;
  '(reg, tlsLatencyVec) <-
    NewVec HistogramKind reg
      {| Name := "tls_duration_seconds";
         Help := "Trace tls latency histogram.";
         Buckets := [decimal 5 100; decimal 1 10; decimal 25 100;
                     decimal 5 10] |}
      ["event"; "client"] ;;
  '(reg, histVec) <-
    NewVec HistogramKind reg
      {| Name := "request_duration_seconds";
         Help := "A histogram of request latencies.";
         Buckets := DefBuckets |}
      ["method"; "client"] ;;
  let trace :=
    {| GotConn := None; PutIdleConn := None; GotFirstResponseByte := None;
       Got100Continue := None;
       DNSStart := Some (observe dnsLatencyVec "dns_start" clientName);
       DNSDone := Some (observe dnsLatencyVec "dns_done" clientName);
       ConnectStart := None; ConnectDone := None;
       TLSHandshakeStart :=
         Some (observe tlsLatencyVec "tls_handshake_start" clientName);
       TLSHandshakeDone :=
         Some (observe tlsLatencyVec "tls_handshake_done" clientName);
       WroteHeaders := None; Wait100Continue := None; WroteRequest := None |} in
  gauge <- WithLabelValues inFlightGaugeVec [clientName] ;;
  counter <- MustCurryWith counterVec [("client", clientName)] ;;
  obs <- MustCurryWith histVec [("client", clientName)] ;;
  timed <- InstrumentRoundTripperDuration obs next ;;
  counted <-
    InstrumentRoundTripperCounter counter
      (InstrumentRoundTripperTrace trace timed) ;;
  let rt := InstrumentRoundTripperInFlight gauge counted in
  match idleConnectionCloser next with
  | Some ic => Ok (reg, transportWithIdleConnectionCloser ic rt)
  | None => Ok (reg, rt)
  end.

(** The five names the function registers, in this order. *)
Definition metricNames : list string :=
  ["client_in_flight_requests"; "client_api_requests_total";
   "dns_duration_seconds"; "tls_duration_seconds"; "request_duration_seconds"].

(** The transport a round tripper hands its requests down to: wrappers and
    the struct's embedded round tripper pass [RoundTrip] on. *)
Fixpoint transport (rt : RoundTripper) : RoundTripper :=
  match rt with
  | Transport _ _ => rt
  | RoundTripperFunc _ next => transport next
  | transportWithIdleConnectionCloser _ rt' => transport rt'
  end.

(** The transports whose idle connections a call of [CloseIdleConnections]
    on the round tripper closes; none when it has no such method. *)
Fixpoint closes (rt : RoundTripper) : list string :=
  match rt with
  | Transport name true => [name]
  | Transport _ false => []
  | RoundTripperFunc _ _ => []
  | transportWithIdleConnectionCloser ic _ => closes ic
  end.

(** The instruments a request passes, outermost first. *)
Fixpoint instruments (rt : RoundTripper) : list Instrument :=
  match rt with
  | Transport _ _ => []
  | RoundTripperFunc i next => i :: instruments next
  | transportWithIdleConnectionCloser _ rt' => instruments rt'
  end.

(** The hooks a round tripper's traces set, as the names of their events. *)
Definition hookNames (it : InstrumentTrace) : list string :=
  let set (h : Hook) (name : string) :=
    match h with Some _ => [name] | None => [] end in
  set (GotConn it) "GotConn" ++ set (PutIdleConn it) "PutIdleConn"
  ++ set (GotFirstResponseByte it) "GotFirstResponseByte"
  ++ set (Got100Continue it) "Got100Continue"
  ++ set (DNSStart it) "DNSStart" ++ set (DNSDone it) "DNSDone"
  ++ set (ConnectStart it) "ConnectStart" ++ set (ConnectDone it) "ConnectDone"
  ++ set (TLSHandshakeStart it) "TLSHandshakeStart"
  ++ set (TLSHandshakeDone it) "TLSHandshakeDone"
  ++ set (WroteHeaders it) "WroteHeaders"
  ++ set (Wait100Continue it) "Wait100Continue"
  ++ set (WroteRequest it) "WroteRequest".

(** Every hook that is set, run at time [t]. *)
Definition fire (it : InstrumentTrace) (t : seconds)
  : list (Result Observation) :=
  let run (h : Hook) :=
    match h with Some f => [f t] | None => [] end in
  run (GotConn it) ++ run (PutIdleConn it) ++ run (GotFirstResponseByte it)
  ++ run (Got100Continue it) ++ run (DNSStart it) ++ run (DNSDone it)
  ++ run (ConnectStart it) ++ run (ConnectDone it)
  ++ run (TLSHandshakeStart it) ++ run (TLSHandshakeDone it)
  ++ run (WroteHeaders it) ++ run (Wait100Continue it)
  ++ run (WroteRequest it).

(** No collector of a name this file registers is in the registry yet. *)
Definition free (reg : Registerer) : Prop :=
  match reg with
  | None => True
  | Some names => forall n, In n metricNames -> ~ In n names
  end.

(** The registry once the five collectors are registered. *)
Definition extended (reg : Registerer) : Registerer :=
  option_map (fun names => names ++ metricNames) reg.

(** A transport for examples; [*http.Transport] closes idle connections. *)
Definition transport0 : RoundTripper := Transport "http.DefaultTransport" true.

End telemeter_http.

Module server.

Import http.

(** The third-party functions [Post] builds the decoder with:
    [expfmt.ResponseFormat], [snappy.NewReader] and [expfmt.NewDecoder]. A
    reader is the bytes it will deliver. *)
Class Libraries := {
  Format : Type;
  ResponseFormat : Header -> Format;
  snappy_NewReader : string -> string;
  NewDecoder : string -> Format -> Decoder
}.

Record Server := {
  store : Store;
  transformer : Transformer;
  validator : validate.Validator
}.

(** The calls that leave the handler and its goroutine. *)
Inductive Event :=
| EvValidate
| EvDecode
| EvWriteMetrics (pm : PartitionedMetrics)
| EvCancel
| EvBodyClose
| EvLog (lvl msg : string).

Definition isDecode (e : Event) : bool :=
  match e with EvDecode => true | _ => false end.

Definition isWriteMetrics (e : Event) : bool :=
  match e with EvWriteMetrics _ => true | _ => false end.

Definition isBodyClose (e : Event) : bool :=
  match e with EvBodyClose => true | _ => false end.

(** ** decodeAndStoreMetrics *)

(** How the [for] loop of lines 88-97 is left. *)
Inductive LoopExit :=
| Break (families : list MetricFamily)
| Return (err : error)
| OutOfFuel.

(** [families[len(families)-1]] overwritten: [Decode] writes through the
    pointer that was appended to the slice just before the call. *)
Definition setLast (families : list MetricFamily) (family : MetricFamily)
  : list MetricFamily :=
  removelast families ++ [family].

(** The loop, one round per unit of fuel. *)
Fixpoint decodeLoop (fuel : nat) (decoder : Decoder)
  (families : list MetricFamily) : list Event * LoopExit :=
  match fuel with
  | O => ([], OutOfFuel)
  | S fuel' =>
      let family := clientmodel.zero in
      let families := families ++ [family] in
      let '(decoder, family, err) := Decode decoder family in
      let families := setLast families family in
      match err with
      | Some err =>
          if error_eqb err io_EOF
          then ([EvDecode], Break families)
          else ([EvDecode], Return err)
      | None =>
          let (evs, exit) := decodeLoop fuel' decoder families in
          (EvDecode :: evs, exit)
      end
  end.

(** Lines 99-107: filter, pack and store the decoded batch. *)
Definition filterPackStore (s : Server) (ctx : Context) (partitionKey : string)
  (families : list MetricFamily) (transformer : Transformer)
  : list Event * option error :=
  match Filter families transformer with
  | (_, Some err) => ([], Some err)
  | (families, None) =>
      let families := Pack families in
      let pm := {| PartitionKey := partitionKey; Families := families |} in
      ([EvWriteMetrics pm], store s ctx pm)
  end.

(** [s.decodeAndStoreMetrics(ctx, partitionKey, decoder, transformer)]: the
    events of the call and the error it returns; [None] when the loop did not
    end within the fuel. A decoder of [n] steps reports an error by its
    [n+1]-st call, so that much fuel always suffices. *)
Definition decodeAndStoreMetrics (s : Server) (ctx : Context)
  (partitionKey : string)
  (decoder : Decoder) (transformer : Transformer)
  : option (list Event * option error) :=
  match decodeLoop (S (List.length decoder)) decoder [] with
  | (evs, Break families) =>
      let (evs', err) :=
        filterPackStore s ctx partitionKey families transformer in
      Some (evs ++ evs', err)
  | (evs, Return err) => Some (evs, Some err)
  | (_, OutOfFuel) => None
  end.

(** A stream ends cleanly when the next call reports [io.EOF]. *)
Definition endsCleanly (tail : Decoder) : bool :=
  match tail with
  | [] => true
  | Fail e :: _ => error_eqb e io_EOF
  | Yield _ :: _ => false
  end.

(** ** Post *)

Inductive Handler :=
| HSelect (partitionKey : string)   (* blocked in the select of line 68 *)
| HReturned.

Inductive Goroutine :=
| GNone                              (* never started *)
| GRunning (partitionKey : string) (decoder : Decoder) (t : MultiTransformer)
| GSending (err : option error)      (* blocked in [errCh <- err] *)
| GExited.

Record Config := {
  handler : Handler;
  goroutine : Goroutine;
  done : bool;                       (* [ctx.Done()] is closed *)
  w : ResponseWriter;
  trace : list Event
}.

(** The deferred calls, last registered first: [cancel()], then
    [req.Body.Close()]. *)
Definition deferred (c : Config) : Config :=
  {| handler := handler c; goroutine := goroutine c; done := true;
     w := w c; trace := trace c ++ [EvCancel; EvBodyClose] |}.

(** The [switch err] of lines 74-81. *)
Definition respond (partitionKey : string) (err : option error)
  (w : ResponseWriter) : ResponseWriter :=
  match err with
  | None => w
  | Some e =>
      if error_eqb e (ErrWriteLimitReached partitionKey)
      then http.Error w (error_Error e) StatusTooManyRequests
      else http.Error w (error_Error e) StatusInternalServerError
  end.

Section WithLibraries.
Context `{Libraries}.

(** Lines 38-66: [Post] up to the [select]. The handler has either
    returned, or started the goroutine and reached the [select]. *)
Definition Post_begin (s : Server) (w : ResponseWriter) (req : Request)
  : Config :=
  if negb (String.eqb (Method req) "POST") then
    {| handler := HReturned; goroutine := GNone; done := false;
       w := WriteHeader w StatusMethodNotAllowed; trace := [] |}
  else
    (* from here on every return runs [deferred]: lines 42 and 45 *)
    let ctx := live in
    let '(partitionKey, transforms, err) := validator s ctx req in
    match err with
    | Some err =>
        deferred
          {| handler := HReturned; goroutine := GNone; done := false;
             w := http.Error w (error_Error err) StatusInternalServerError;
             trace := [EvValidate] |}
    | None =>
        let t := metricfamily.empty in
        let t := With t transforms in
        let t := With t (transformer s) in
        let format := ResponseFormat (Headers req) in
        let r := Body req in
        let r :=
          if String.eqb (Get (Headers req) "Content-Encoding") "snappy"
          then snappy_NewReader r else r in
        let decoder := NewDecoder r format in
        {| handler := HSelect partitionKey;
           goroutine := GRunning partitionKey decoder t;
           done := false; w := w; trace := [EvValidate] |}
    end.

End WithLibraries.

(** What can happen next once [Post] is at its [select]. The goroutine shares
    nothing with the handler but [errCh] and [ctx], so its run up to the send
    is one step; what its decoder returns is taken not to depend on the handler
    having closed the body in the meantime. *)
Inductive Action :=
| ADeadline    (* the context's deadline passes, or the client goes away *)
| AGoroutine   (* the goroutine runs [decodeAndStoreMetrics] up to its send *)
| ATimeout     (* the select takes [case <-ctx.Done()] *)
| AReceive.    (* the select takes [case err := <-errCh] *)

Definition step (s : Server) (l : Action) (c : Config) : option Config :=
  match l with
  | ADeadline =>
      if done c then None
      else Some {| handler := handler c; goroutine := goroutine c;
                   done := true; w := w c; trace := trace c |}
  | AGoroutine =>
      match goroutine c with
      | GRunning partitionKey decoder t =>
          match
            decodeAndStoreMetrics s (done c) partitionKey decoder (Transform t)
          with
          | Some (evs, err) =>
              Some {| handler := handler c; goroutine := GSending err;
                      done := done c; w := w c; trace := trace c ++ evs |}
          | None => None
          end
      | _ => None
      end
  | ATimeout =>
      match handler c with
      | HSelect _ =>
          if done c then
            Some (deferred
                    {| handler := HReturned; goroutine := goroutine c;
                       done := done c;
                       w := http.Error (w c) "Timeout while storing metrics"
                              StatusInternalServerError;
                       trace := trace c ++
                         [EvLog "error" "timeout processing incoming request"] |})
          else None
      | HReturned => None
      end
  | AReceive =>
      match handler c, goroutine c with
      | HSelect partitionKey, GSending err =>
          Some (deferred
                  {| handler := HReturned; goroutine := GExited;
                     done := done c; w := respond partitionKey err (w c);
                     trace := trace c |})
      | _, _ => None
      end
  end.

(** A schedule is run from left to right; it fails at a step that is not
    enabled. *)
Fixpoint run (s : Server) (sched : list Action) (c : Config) : option Config :=
  match sched with
  | [] => Some c
  | l :: sched' =>
      match step s l c with
      | Some c' => run s sched' c'
      | None => None
      end
  end.

(** Lines 58-63: the decoder [Post] binds to the request body. *)
Definition bodyDecoder `{Libraries} (req : Request) : Decoder :=
  NewDecoder
    (if String.eqb (Get (Headers req) "Content-Encoding") "snappy"
     then snappy_NewReader (Body req) else Body req)
    (ResponseFormat (Headers req)).

(** The response of the timeout branch, lines 70-71. *)
Definition timeoutResponse : ResponseWriter :=
  http.Error fresh "Timeout while storing metrics" StatusInternalServerError.

Definition timeoutLog : Event :=
  EvLog "error" "timeout processing incoming request".

(** The configurations [Post] can be in once it has reached its [select] with
    partition key [partitionKey], decoder [decoder] and chain [t], and a
    response writer nothing was written to. *)
Inductive Reach (s : Server) (partitionKey : string) (decoder : Decoder)
  (t : MultiTransformer) : Config -> Prop :=
| at_select_running dn :
    Reach s partitionKey decoder t
      {| handler := HSelect partitionKey;
         goroutine := GRunning partitionKey decoder t;
         done := dn; w := fresh; trace := [EvValidate] |}
| at_select_offered dn ctx evs err :
    decodeAndStoreMetrics s ctx partitionKey decoder (Transform t) =
      Some (evs, err) ->
    Reach s partitionKey decoder t
      {| handler := HSelect partitionKey; goroutine := GSending err;
         done := dn; w := fresh; trace := [EvValidate] ++ evs |}
| timed_out_running :
    Reach s partitionKey decoder t
      {| handler := HReturned; goroutine := GRunning partitionKey decoder t;
         done := true; w := timeoutResponse;
         trace := ([EvValidate] ++ [timeoutLog]) ++ [EvCancel; EvBodyClose] |}
| timed_out_then_offered evs err :
    decodeAndStoreMetrics s true partitionKey decoder (Transform t) =
      Some (evs, err) ->
    Reach s partitionKey decoder t
      {| handler := HReturned; goroutine := GSending err;
         done := true; w := timeoutResponse;
         trace := (([EvValidate] ++ [timeoutLog]) ++ [EvCancel; EvBodyClose])
                  ++ evs |}
| offered_then_timed_out ctx evs err :
    decodeAndStoreMetrics s ctx partitionKey decoder (Transform t) =
      Some (evs, err) ->
    Reach s partitionKey decoder t
      {| handler := HReturned; goroutine := GSending err;
         done := true; w := timeoutResponse;
         trace := (([EvValidate] ++ evs) ++ [timeoutLog])
                  ++ [EvCancel; EvBodyClose] |}
| received ctx evs err :
    decodeAndStoreMetrics s ctx partitionKey decoder (Transform t) =
      Some (evs, err) ->
    Reach s partitionKey decoder t
      {| handler := HReturned; goroutine := GExited;
         done := true; w := respond partitionKey err fresh;
         trace := ([EvValidate] ++ evs) ++ [EvCancel; EvBodyClose] |}.

(** Where no goroutine was started and the handler has returned, nothing
    happens any more but the deadline passing. *)
Definition idle (c0 c : Config) : Prop :=
  handler c = HReturned /\ goroutine c = GNone
  /\ w c = w c0 /\ trace c = trace c0.

(** How often the handler closed the request body. *)
Definition bodyCloses (c : Config) : nat :=
  List.length (filter isBodyClose (trace c)).

Definition identity (t : Transformer) : Prop :=
  forall family, t family = (family, true, None).

Definition family (name : string) : MetricFamily :=
  {| Name := Some name; Help := None; Type_ := Some GAUGE;
     Metrics := [{| Label := []; TimestampMs := 0 |}] |}.

Definition noStore : Server :=
  {| store := fun _ _ => None;
     transformer := fun f => (f, true, None);
     validator := fun _ _ => ("tenant", (fun f => (f, true, None)), None) |}.

(** Stand-ins for the third-party functions in examples: a body is the name
    of the one family it holds, and an empty body holds none. *)
Definition exampleLibraries : Libraries :=
  {| Format := unit;
     ResponseFormat := fun _ => tt;
     snappy_NewReader := fun r => r;
     NewDecoder := fun r _ =>
       match r with
       | EmptyString => []
       | _ => [Yield (family r)]
       end |}.

Definition exampleRequest (method : string) : Request :=
  {| Method := method; Headers := []; Body := "up" |}.

(** A server whose storage refuses every write of the tenant as over its
    limit. *)
Definition limitedStore : Server :=
  {| store := fun _ pm => Some (ErrWriteLimitReached (PartitionKey pm));
     transformer := fun f => (f, true, None);
     validator := fun _ _ => ("tenant", (fun f => (f, true, None)), None) |}.

(** A server whose validator rejects every request. *)
Definition rejecting : Server :=
  {| store := fun _ _ => None;
     transformer := fun f => (f, true, None);
     validator := fun _ _ =>
       ("", (fun f => (f, true, None)), Some (errorOther "unauthorized")) |}.

(** The events of the goroutine. *)
Definition pipelineEvent (e : Event) : Prop :=
  e = EvDecode \/ exists pm, e = EvWriteMetrics pm.

(** The pass that runs [first] and, on a family it keeps, [next] on what
    [first] made of it. *)
Definition andThen (first next : Transformer) : Transformer :=
  fun family =>
    match first family with
    | (family', _, Some err) => (family', false, Some err)
    | (family', false, None) => (family', false, None)
    | (family', true, None) =>
        match next family' with
        | (family'', _, Some err) => (family'', false, Some err)
        | (family'', ok, None) => (family'', ok, None)
        end
    end.

(** The deadline passes in the schedule before the handler receives the
    goroutine's outcome, or without its ever receiving it. *)
Fixpoint deadlineFirst (sched : list Action) : bool :=
  match sched with
  | [] => false
  | ADeadline :: _ => true
  | AReceive :: _ => false
  | _ :: sched' => deadlineFirst sched'
  end.

(** Two passes that do not commute: the first marks a family as checked in its
    help text, the second keeps only families that carry the mark. *)
Definition markChecked : Transformer :=
  fun f =>
    ({| Name := Name f; Help := Some "checked"; Type_ := Type_ f;
        Metrics := Metrics f |}, true, None).

Definition onlyChecked : Transformer :=
  fun f =>
    match Help f with
    | Some "checked" => (f, true, None)
    | _ => (f, false, None)
    end.

(** A server whose validator hands out [markChecked] for the request and
    whose process-wide pass is [onlyChecked]. *)
Definition ordered : Server :=
  {| store := fun _ _ => None;
     transformer := onlyChecked;
     validator := fun _ _ => ("tenant", markChecked, None) |}.

(** Kinds of events, for counting them in a trace. *)
Definition isValidate (e : Event) : bool :=
  match e with EvValidate => true | _ => false end.


Definition isLog (e : Event) : bool :=
  match e with EvLog _ _ => true | _ => false end.

(** How often an event of the kind occurs in the trace of [c]. *)
Definition calls (kind : Event -> bool) (c : Config) : nat :=
  List.length (filter kind (trace c)).

(** ** Equality of errors *)

Lemma error_eqb_spec (a b : error) : reflect (a = b) (error_eqb a b).
Proof.
  destruct a as [|k|m], b as [|k'|m']; simpl; try (constructor; congruence).
  - destruct (String.eqb_spec k k'); constructor; congruence.
  - destruct (String.eqb_spec m m'); constructor; congruence.
Qed.

Lemma error_eqb_refl (a : error) : error_eqb a a = true.
Proof. destruct (error_eqb_spec a a); congruence. Qed.

Lemma error_eqb_neq (a b : error) : a <> b -> error_eqb a b = false.
Proof. destruct (error_eqb_spec a b); congruence. Qed.

(** ** The decode loop *)

Lemma Decode_shrinks d v d' v' :
  Decode d v = (d', v', None) -> List.length d' < List.length d.
Proof.
  destruct d as [|[f|e] d0]; simpl; intros E; inversion E; subst; lia.
Qed.

Lemma setLast_snoc families x y : setLast (families ++ [x]) y = families ++ [y].
Proof. unfold setLast. now rewrite removelast_last. Qed.

(** One round of the loop, with the slot update resolved. *)
Lemma decodeLoop_round fuel decoder families :
  decodeLoop (S fuel) decoder families =
  match Decode decoder clientmodel.zero with
  | (_, family, Some err) =>
      if error_eqb err io_EOF
      then ([EvDecode], Break (families ++ [family]))
      else ([EvDecode], Return err)
  | (decoder', family, None) =>
      let (evs, exit) := decodeLoop fuel decoder' (families ++ [family]) in
      (EvDecode :: evs, exit)
  end.
Proof.
  simpl. destruct (Decode decoder clientmodel.zero) as [[d f] [e|]];
    rewrite setLast_snoc; reflexivity.
Qed.

(** With more fuel than the decoder has steps the loop ends by itself. *)
Lemma decodeLoop_ends fuel : forall decoder families,
  List.length decoder < fuel ->
  snd (decodeLoop fuel decoder families) <> OutOfFuel.
Proof.
  induction fuel as [|fuel IH]; intros decoder families Hlt; [lia|].
  rewrite decodeLoop_round.
  destruct (Decode decoder clientmodel.zero) as [[d' f] [e|]] eqn:E.
  - destruct (error_eqb e io_EOF); simpl; discriminate.
  - apply Decode_shrinks in E.
    specialize (IH d' (families ++ [f]) ltac:(lia)).
    destruct (decodeLoop fuel d' (families ++ [f])) as [evs exit]; exact IH.
Qed.

(** The result does not depend on how much fuel there is beyond that. *)
Lemma decodeLoop_fuel fuel : forall fuel' decoder families,
  List.length decoder < fuel -> List.length decoder < fuel' ->
  decodeLoop fuel decoder families = decodeLoop fuel' decoder families.
Proof.
  induction fuel as [|fuel IH]; intros fuel' decoder families H1 H2; [lia|].
  destruct fuel' as [|fuel']; [lia|].
  rewrite !decodeLoop_round.
  destruct (Decode decoder clientmodel.zero) as [[d' f] [e|]] eqn:E; [reflexivity|].
  apply Decode_shrinks in E.
  rewrite (IH fuel' d' (families ++ [f])) by lia. reflexivity.
Qed.

(** [decodeAndStoreMetrics] always returns. *)
Lemma decodeAndStoreMetrics_returns s ctx partitionKey decoder transformer :
  exists evs err,
    decodeAndStoreMetrics s ctx partitionKey decoder transformer =
    Some (evs, err).
Proof.
  unfold decodeAndStoreMetrics.
  pose proof (decodeLoop_ends (S (List.length decoder)) decoder []
                ltac:(lia)) as Hends.
  destruct (decodeLoop (S (List.length decoder)) decoder []) as [evs [fams|e|]].
  - destruct (filterPackStore s ctx partitionKey fams transformer)
      as [evs' err].
    eauto.
  - eauto.
  - now elim Hends.
Qed.

(** Decoding through [n] families that the decoder yields costs [n] rounds and
    appends them in order. *)
Lemma decodeLoop_yields fams : forall tail families fuel,
  decodeLoop (List.length fams + fuel) (map Yield fams ++ tail) families =
  let (evs, exit) := decodeLoop fuel tail (families ++ fams) in
  (repeat EvDecode (List.length fams) ++ evs, exit).
Proof.
  induction fams as [|f fams IH]; intros tail families fuel.
  - simpl. rewrite app_nil_r.
    now destruct (decodeLoop fuel tail families).
  - change (List.length (f :: fams) + fuel) with (S (List.length fams + fuel)).
    rewrite decodeLoop_round. simpl Decode. cbv iota beta.
    rewrite IH. rewrite <- app_assoc. simpl.
    now destruct (decodeLoop fuel tail (families ++ f :: fams)).
Qed.

Lemma decodeLoop_clean tail families fuel :
  endsCleanly tail = true ->
  decodeLoop (S fuel) tail families =
  ([EvDecode], Break (families ++ [clientmodel.zero])).
Proof.
  intros Hc. rewrite decodeLoop_round.
  destruct tail as [|[f|e] tail]; simpl in *; try discriminate.
  - reflexivity.
  - now rewrite Hc.
Qed.

Lemma decodeLoop_fails e rest families fuel :
  e <> io_EOF ->
  decodeLoop (S fuel) (Fail e :: rest) families = ([EvDecode], Return e).
Proof.
  intros Hne. rewrite decodeLoop_round. simpl.
  now rewrite (error_eqb_neq _ _ Hne).
Qed.

Lemma repeat_snoc {A} (x : A) n : repeat x n ++ [x] = repeat x (S n).
Proof. induction n as [|n IH]; simpl in *; [reflexivity | now rewrite IH]. Qed.

(** The loop of [decodeAndStoreMetrics] on a stream of [fams] that ends
    cleanly. *)
Lemma decode_clean_stream fams tail :
  endsCleanly tail = true ->
  decodeLoop (S (List.length (map Yield fams ++ tail))) (map Yield fams ++ tail) [] =
  (repeat EvDecode (S (List.length fams)), Break (fams ++ [clientmodel.zero])).
Proof.
  intros Hc.
  rewrite length_app, length_map.
  replace (S (List.length fams + List.length tail))
    with (List.length fams + S (List.length tail)) by lia.
  rewrite decodeLoop_yields, (decodeLoop_clean _ _ _ Hc).
  simpl app at 2. now rewrite repeat_snoc.
Qed.

Lemma decode_failing_stream fams e rest :
  e <> io_EOF ->
  decodeLoop (S (List.length (map Yield fams ++ Fail e :: rest)))
    (map Yield fams ++ Fail e :: rest) [] =
  (repeat EvDecode (S (List.length fams)), Return e).
Proof.
  intros Hne.
  rewrite length_app, length_map. simpl List.length.
  replace (S (List.length fams + S (List.length rest)))
    with (List.length fams + S (S (List.length rest))) by lia.
  rewrite decodeLoop_yields, (decodeLoop_fails _ _ _ _ Hne).
  now rewrite repeat_snoc.
Qed.

(** ** Filter and Pack *)

Lemma Filter_identity t families :
  identity t -> Filter families t = (map Some families, None).
Proof.
  intros Hid. induction families as [|f families IH]; simpl; [reflexivity|].
  now rewrite Hid, IH.
Qed.

Lemma merge_fresh f packed :
  ~ In (GetName f) (map GetName packed) -> merge f packed = packed ++ [f].
Proof.
  induction packed as [|g packed IH]; simpl; intros Hnin; [reflexivity|].
  destruct (String.eqb_spec (GetName g) (GetName f)) as [E|_].
  - exfalso. apply Hnin. now left.
  - rewrite IH; [reflexivity|]. intros Hin. apply Hnin. now right.
Qed.

Lemma Pack_fold families : forall packed,
  NoDup (map GetName (packed ++ families)) ->
  fold_left
    (fun packed slot =>
       match slot with
       | None => packed
       | Some f => merge f packed
       end)
    (map Some families) packed = packed ++ families.
Proof.
  induction families as [|f families IH]; intros packed Hnd; simpl.
  - now rewrite app_nil_r.
  - rewrite merge_fresh.
    + rewrite IH; rewrite <- app_assoc; [reflexivity | exact Hnd].
    + rewrite map_app in Hnd. simpl in Hnd.
      apply NoDup_remove_2 in Hnd. intros Hin. apply Hnd.
      apply in_or_app. now left.
Qed.

(** Packing a batch without empty slots and without two families of one name
    changes nothing. *)
Lemma Pack_distinct families :
  NoDup (map GetName families) -> Pack (map Some families) = families.
Proof. intros Hnd. unfold Pack. now rewrite Pack_fold. Qed.

Lemma NoDup_snoc {A} (l : list A) (x : A) :
  NoDup l -> ~ In x l -> NoDup (l ++ [x]).
Proof.
  induction l as [|y l IH]; simpl; intros Hnd Hnin.
  - constructor; [intros [] | constructor].
  - inversion Hnd as [|? ? Hy Hl]; subst. constructor.
    + intros Hin. apply in_app_or in Hin. destruct Hin as [Hin|[->|[]]].
      * contradiction.
      * apply Hnin. now left.
    + apply IH; [assumption|]. intros Hin. apply Hnin. now right.
Qed.

(** ** The pipeline *)

(** On a stream of [fams] that ends cleanly the filter, pack and store steps
    run on [fams] followed by the slot of the last call. *)
Lemma decodeAndStoreMetrics_clean s ctx partitionKey t fams tail :
  endsCleanly tail = true ->
  decodeAndStoreMetrics s ctx partitionKey (map Yield fams ++ tail) t =
  (let (evs, err) :=
     filterPackStore s ctx partitionKey (fams ++ [clientmodel.zero]) t in
   Some (repeat EvDecode (S (List.length fams)) ++ evs, err)).
Proof.
  intros Hc. unfold decodeAndStoreMetrics.
  now rewrite (decode_clean_stream fams tail Hc).
Qed.

(** C10. The loop appends a zero-value family before every call of Decode, so a
    stream of N families that ends cleanly leaves the loop after N+1 calls with
    a batch of N+1 entries, the decoded families followed by one zero-value
    family that no call filled; this batch is what the filter, pack and store
    steps receive, and it is not empty even when the body holds no family. *)
Theorem decode_loop_keeps_trailing_slot
  (s : Server) (ctx : Context) (partitionKey : string) (t : Transformer)
  (fams : list MetricFamily) (tail : Decoder) :
  endsCleanly tail = true ->
  let decoder := map Yield fams ++ tail in
  let batch := fams ++ [clientmodel.zero] in
  decodeLoop (S (List.length decoder)) decoder [] =
    (repeat EvDecode (List.length fams + 1), Break batch)
  /\ decodeAndStoreMetrics s ctx partitionKey decoder t =
       (let (evs, err) := filterPackStore s ctx partitionKey batch t in
        Some (repeat EvDecode (List.length fams + 1) ++ evs, err))
  /\ List.length batch = List.length fams + 1
  /\ last batch (List.hd clientmodel.zero fams) = clientmodel.zero
  /\ batch <> [].
Proof.
  intros Hc decoder batch. subst decoder batch.
  pose proof (decode_clean_stream fams tail Hc) as Hloop.
  replace (List.length fams + 1) with (S (List.length fams)) by lia.
  repeat split.
  - exact Hloop.
  - now apply decodeAndStoreMetrics_clean.
  - rewrite length_app. simpl. lia.
  - apply last_last.
  - intros E. apply app_eq_nil in E. destruct E as [_ E]. discriminate.
Qed.

(** C3. When the decoder reports an error other than end-of-stream after K
    decoded families, decodeAndStoreMetrics returns that error, its only
    events are the K+1 calls of Decode, and so WriteMetrics is not called; the
    goroutine then offers exactly this error on the channel. *)
Theorem decode_error_aborts_before_store
  (s : Server) (ctx : Context) (partitionKey : string) (t : MultiTransformer)
  (fams : list MetricFamily) (e : error) (rest : Decoder) :
  e <> io_EOF ->
  let decoder := map Yield fams ++ Fail e :: rest in
  let evs := repeat EvDecode (List.length fams + 1) in
  decodeAndStoreMetrics s ctx partitionKey decoder (Transform t) =
    Some (evs, Some e)
  /\ existsb isWriteMetrics evs = false
  /\ forall c, goroutine c = GRunning partitionKey decoder t ->
       step s AGoroutine c =
         Some {| handler := handler c; goroutine := GSending (Some e);
                 done := done c; w := w c; trace := trace c ++ evs |}.
Proof.
  intros Hne decoder evs. subst decoder evs.
  replace (List.length fams + 1) with (S (List.length fams)) by lia.
  assert (Hrun : forall ctx,
             decodeAndStoreMetrics s ctx partitionKey
               (map Yield fams ++ Fail e :: rest) (Transform t) =
             Some (repeat EvDecode (S (List.length fams)), Some e)).
  { intros ctx'. unfold decodeAndStoreMetrics.
    now rewrite (decode_failing_stream fams e rest Hne). }
  split; [apply Hrun|]. split.
  - generalize (S (List.length fams)) as n.
    induction n as [|n IH]; simpl; [reflexivity | exact IH].
  - intros c Hg. unfold step. rewrite Hg, Hrun. reflexivity.
Qed.

Lemma decode_loop_keeps_trailing_slot_witness :
  decodeLoop 3 [Yield (family "up"); Yield (family "load")] [] =
    ([EvDecode; EvDecode; EvDecode],
     Break [family "up"; family "load"; clientmodel.zero]).
Proof.
  exact (proj1 (decode_loop_keeps_trailing_slot noStore false "tenant"
                  (fun f => (f, true, None)) [family "up"; family "load"] []
                  eq_refl)).
Defined.

Lemma decode_error_aborts_before_store_witness :
  decodeAndStoreMetrics noStore false "tenant"
    [Yield (family "up"); Fail (errorOther "unexpected EOF")]
    (Transform metricfamily.empty) =
  Some ([EvDecode; EvDecode], Some (errorOther "unexpected EOF")).
Proof.
  exact (proj1 (decode_error_aborts_before_store noStore false "tenant"
                  metricfamily.empty [family "up"]
                  (errorOther "unexpected EOF") []
                  ltac:(discriminate))).
Defined.

(** With an identity transform and N decoded families of pairwise distinct,
    non-empty names, the batch that WriteMetrics receives is the packed form of
    the N families followed by the zero-value family of the last, failing call
    of Decode. Under the [Pack] modelled above, which keeps a family without
    samples, that is N+1 entries; what the repository's own [Pack] makes of
    the trailing slot is not decided here. *)
Theorem store_receives_trailing_slot
  (s : Server) (ctx : Context) (partitionKey : string) (t : Transformer)
  (fams : list MetricFamily) (tail : Decoder) :
  endsCleanly tail = true ->
  identity t ->
  NoDup (map GetName fams) ->
  ~ In "" (map GetName fams) ->
  let batch := fams ++ [clientmodel.zero] in
  let pm := {| PartitionKey := partitionKey;
               Families := Pack (map Some batch) |} in
  decodeAndStoreMetrics s ctx partitionKey (map Yield fams ++ tail) t =
    Some (repeat EvDecode (List.length fams + 1) ++ [EvWriteMetrics pm],
          store s ctx pm)
  /\ Families pm = batch
  /\ List.length (Families pm) = List.length fams + 1.
Proof.
  intros Hc Hid Hnd Hne batch pm.
  assert (Hpack : Families pm = batch).
  { subst pm batch. simpl. apply Pack_distinct.
    rewrite map_app. simpl. now apply NoDup_snoc. }
  split; [|split; [exact Hpack|]].
  - subst pm batch.
    rewrite (decodeAndStoreMetrics_clean s ctx partitionKey t fams tail Hc).
    replace (List.length fams + 1) with (S (List.length fams)) by lia.
    unfold filterPackStore. now rewrite (Filter_identity t _ Hid).
  - rewrite Hpack. subst batch. rewrite length_app. simpl. lia.
Qed.

Lemma store_receives_trailing_slot_witness :
  decodeAndStoreMetrics noStore false "tenant"
    [Yield (family "up"); Yield (family "load")] (fun f => (f, true, None)) =
  Some ([EvDecode; EvDecode; EvDecode;
         EvWriteMetrics
           {| PartitionKey := "tenant";
              Families := [family "up"; family "load"; clientmodel.zero] |}],
        None).
Proof.
  refine (proj1 (store_receives_trailing_slot noStore false "tenant"
                   (fun f => (f, true, None)) [family "up"; family "load"] []
                   eq_refl (fun _ => eq_refl) _ _)).
  - repeat constructor; simpl; intuition discriminate.
  - simpl; intuition discriminate.
Defined.

(** ** Post up to the select *)

Section PostBegin.
Context `{Libraries}.

Lemma Post_begin_not_POST s w0 req :
  Method req <> "POST" ->
  Post_begin s w0 req =
  {| handler := HReturned; goroutine := GNone; done := false;
     w := WriteHeader w0 StatusMethodNotAllowed; trace := [] |}.
Proof.
  intros Hm. unfold Post_begin.
  apply String.eqb_neq in Hm. now rewrite Hm.
Qed.

Lemma Post_begin_invalid s w0 req partitionKey transforms err :
  Method req = "POST" ->
  validator s live req = (partitionKey, transforms, Some err) ->
  Post_begin s w0 req =
  {| handler := HReturned; goroutine := GNone; done := true;
     w := http.Error w0 (error_Error err) StatusInternalServerError;
     trace := [EvValidate; EvCancel; EvBodyClose] |}.
Proof.
  intros Hm Hv. unfold Post_begin. rewrite Hm, Hv. reflexivity.
Qed.

Lemma Post_begin_valid s w0 req partitionKey transforms :
  Method req = "POST" ->
  validator s live req = (partitionKey, transforms, None) ->
  Post_begin s w0 req =
  {| handler := HSelect partitionKey;
     goroutine :=
       GRunning partitionKey (bodyDecoder req)
         (With (With metricfamily.empty transforms) (transformer s));
     done := false; w := w0; trace := [EvValidate] |}.
Proof.
  intros Hm Hv. unfold Post_begin. rewrite Hm, Hv. reflexivity.
Qed.

End PostBegin.

(** ** Runs *)

Lemma run_app s sched1 : forall sched2 c,
  run s (sched1 ++ sched2) c =
  match run s sched1 c with
  | Some c' => run s sched2 c'
  | None => None
  end.
Proof.
  induction sched1 as [|l sched1 IH]; intros sched2 c; simpl; [reflexivity|].
  destruct (step s l c); [apply IH | reflexivity].
Qed.

(** A property that every step preserves holds along every run. *)
Lemma run_preserves (P : Config -> Prop) s :
  (forall l c c', P c -> step s l c = Some c' -> P c') ->
  forall sched c c', P c -> run s sched c = Some c' -> P c'.
Proof.
  intros Hstep sched.
  induction sched as [|l sched IH]; simpl; intros c c' HP Hrun.
  - now inversion Hrun; subst.
  - destruct (step s l c) as [c1|] eqn:E; [|discriminate].
    eapply IH; [eapply Hstep; eassumption | exact Hrun].
Qed.

Lemma idle_step s c0 l c c' : idle c0 c -> step s l c = Some c' -> idle c0 c'.
Proof.
  intros (Hh & Hg & Hw & Ht) Hstep.
  destruct l; simpl in Hstep; rewrite ?Hh, ?Hg in Hstep; try discriminate.
  destruct (done c); inversion Hstep; subst; repeat split; assumption.
Qed.

Lemma idle_run s c0 sched c :
  handler c0 = HReturned -> goroutine c0 = GNone ->
  run s sched c0 = Some c -> idle c0 c.
Proof.
  intros Hh Hg Hrun.
  eapply (run_preserves (idle c0)); [apply idle_step | | exact Hrun].
  repeat split; assumption.
Qed.

Lemma Reach_step s partitionKey decoder t l c c' :
  Reach s partitionKey decoder t c -> step s l c = Some c' ->
  Reach s partitionKey decoder t c'.
Proof.
  intros HR Hstep.
  destruct HR
    as [dn|dn ctx evs err Hrun| |evs err Hrun|ctx evs err Hrun|ctx evs err Hrun];
    destruct l; simpl in Hstep; try discriminate.
  - destruct dn; inversion Hstep; subst. constructor.
  - destruct (decodeAndStoreMetrics s dn partitionKey decoder (Transform t))
      as [[evs err]|] eqn:Hrun; inversion Hstep; subst.
    now apply at_select_offered with (ctx := dn).
  - destruct dn; inversion Hstep; subst. apply timed_out_running.
  - destruct dn; inversion Hstep; subst.
    now apply at_select_offered with (ctx := ctx).
  - destruct dn; inversion Hstep; subst.
    now apply offered_then_timed_out with (ctx := ctx).
  - inversion Hstep; subst. now apply received with (ctx := ctx).
  - destruct (decodeAndStoreMetrics s true partitionKey decoder (Transform t))
      as [[evs err]|] eqn:Hrun; inversion Hstep; subst.
    now apply timed_out_then_offered.
Qed.

Lemma Reach_run s partitionKey decoder t sched c c' :
  Reach s partitionKey decoder t c -> run s sched c = Some c' ->
  Reach s partitionKey decoder t c'.
Proof.
  apply (run_preserves (Reach s partitionKey decoder t)).
  intros l c1 c2. apply Reach_step.
Qed.

(** ** Events of the pipeline *)

Lemma decodeLoop_events fuel : forall decoder families,
  Forall pipelineEvent (fst (decodeLoop fuel decoder families)).
Proof.
  induction fuel as [|fuel IH]; intros decoder families; [constructor|].
  rewrite decodeLoop_round.
  destruct (Decode decoder clientmodel.zero) as [[d' f] [e|]].
  - destruct (error_eqb e io_EOF); simpl; repeat constructor.
  - specialize (IH d' (families ++ [f])).
    destruct (decodeLoop fuel d' (families ++ [f])) as [evs exit].
    simpl in *. constructor; [now left | exact IH].
Qed.

Lemma decodeAndStoreMetrics_events s ctx partitionKey decoder t evs err :
  decodeAndStoreMetrics s ctx partitionKey decoder t = Some (evs, err) ->
  Forall pipelineEvent evs.
Proof.
  unfold decodeAndStoreMetrics, filterPackStore.
  pose proof (decodeLoop_events (S (List.length decoder)) decoder []) as Hev.
  destruct (decodeLoop (S (List.length decoder)) decoder []) as [evs0 [fams|e|]];
    simpl in Hev; intros E; try discriminate.
  - destruct (Filter fams t) as [slots [e|]]; inversion E; subst.
    + now rewrite app_nil_r.
    + apply Forall_app. split; [exact Hev|].
      constructor; [|constructor]. right. eauto.
  - now inversion E; subst.
Qed.

Lemma pipeline_never_closes evs :
  Forall pipelineEvent evs -> filter isBodyClose evs = [].
Proof.
  induction 1 as [|e evs He _ IH]; [reflexivity|].
  simpl. destruct He as [->|[pm ->]]; simpl; exact IH.
Qed.

(** ** Strings *)

Lemma prefix_app p : forall rest, String.prefix p (p ++ rest)%string = true.
Proof.
  induction p as [|a p IH]; intros rest; simpl.
  - now destruct rest.
  - destruct (ascii_dec a a) as [_|Hne]; [apply IH | now elim Hne].
Qed.

Lemma contains_unfold s sub :
  contains s sub =
  if String.prefix sub s then true
  else match s with
       | EmptyString => false
       | String _ s' => contains s' sub
       end.
Proof. now destruct s. Qed.

Lemma contains_here sub rest : contains (sub ++ rest)%string sub = true.
Proof. now rewrite contains_unfold, prefix_app. Qed.

Lemma contains_later front : forall s sub,
  contains s sub = true -> contains (front ++ s)%string sub = true.
Proof.
  induction front as [|a front IH]; intros s sub Hc; [exact Hc|].
  rewrite contains_unfold.
  destruct (String.prefix sub (String a front ++ s)); [reflexivity|].
  now apply IH.
Qed.

(** ** The handler *)

Lemma Filter_ext t t' families :
  (forall family, t family = t' family) -> Filter families t = Filter families t'.
Proof.
  intros Hext. induction families as [|f families IH]; simpl; [reflexivity|].
  now rewrite Hext, IH.
Qed.

Lemma Transform_two first next family :
  Transform (With (With metricfamily.empty first) next) family =
  andThen first next family.
Proof.
  unfold Transform, andThen. simpl.
  destruct (first family) as [[f' [|]] [e|]]; try reflexivity.
  destruct (next f') as [[f'' [|]] [e|]]; reflexivity.
Qed.

(** Once the handler has returned, the response stays as it is. *)
Lemma returned_step s l c c' :
  handler c = HReturned -> step s l c = Some c' ->
  handler c' = HReturned /\ w c' = w c.
Proof.
  intros Hh Hstep. destruct l; simpl in Hstep; rewrite ?Hh in Hstep;
    try discriminate.
  - destruct (done c); inversion Hstep; subst; now split.
  - destruct (goroutine c) as [|pk d t|err|]; try discriminate.
    destruct (decodeAndStoreMetrics s (done c) pk d (Transform t))
      as [[evs err]|];
      inversion Hstep; subst; now split.
Qed.

Lemma returned_run s c0 sched c :
  handler c0 = HReturned -> run s sched c0 = Some c ->
  handler c = HReturned /\ w c = w c0.
Proof.
  intros Hh Hrun.
  eapply (run_preserves (fun c => handler c = HReturned /\ w c = w c0));
    [ | split; [exact Hh | reflexivity] | exact Hrun].
  intros l c1 c2 [H1 H2] Hstep.
  destruct (returned_step s l c1 c2 H1 Hstep) as [H3 H4].
  split; congruence.
Qed.

(** A goroutine left behind by a handler that has returned is never received
    from: the answer stays and the goroutine does not exit. *)
Lemma abandoned_run s c0 sched c :
  handler c0 = HReturned -> goroutine c0 <> GExited ->
  run s sched c0 = Some c ->
  handler c = HReturned /\ w c = w c0 /\ goroutine c <> GExited.
Proof.
  intros Hh Hg Hrun.
  eapply (run_preserves
            (fun c => handler c = HReturned /\ w c = w c0
                      /\ goroutine c <> GExited));
    [ | repeat split; assumption | exact Hrun].
  intros l c1 c2 (H1 & H2 & H3) Hstep.
  destruct (returned_step s l c1 c2 H1 Hstep) as [H4 H5].
  split; [exact H4|]. split; [congruence|].
  destruct l; simpl in Hstep; rewrite ?H1 in Hstep; try discriminate.
  - destruct (done c1); inversion Hstep; subst; exact H3.
  - destruct (goroutine c1) as [|pk d t|err|]; try discriminate.
    destruct (decodeAndStoreMetrics s (done c1) pk d (Transform t))
      as [[evs err]|]; inversion Hstep; subst; discriminate.
Qed.

Section Post.
Context `{Libraries}.

(** Every run of [Post] is a run from one of its three ways to the [select]. *)
Lemma Post_runs s req sched c :
  run s sched (Post_begin s fresh req) = Some c ->
  (Method req <> "POST" /\ idle (Post_begin s fresh req) c
   /\ trace (Post_begin s fresh req) = [])
  \/ (Method req = "POST" /\ idle (Post_begin s fresh req) c
      /\ trace (Post_begin s fresh req) = [EvValidate; EvCancel; EvBodyClose]
      /\ exists err, snd (validator s live req) = Some err)
  \/ (Method req = "POST"
      /\ exists partitionKey transforms,
           validator s live req = (partitionKey, transforms, None)
           /\ Reach s partitionKey (bodyDecoder req)
                (With (With metricfamily.empty transforms) (transformer s)) c).
Proof.
  intros Hrun.
  destruct (String.eqb_spec (Method req) "POST") as [Hm|Hm].
  - destruct (validator s live req) as [[pk ts] [e|]] eqn:Hv.
    + right; left. split; [exact Hm|].
      rewrite (Post_begin_invalid s fresh req pk ts e Hm Hv) in *.
      split; [now apply (idle_run s _ sched)|]. split; [reflexivity|].
      now exists e.
    + right; right. split; [exact Hm|]. exists pk, ts. split; [reflexivity|].
      rewrite (Post_begin_valid s fresh req pk ts Hm Hv) in Hrun.
      eapply Reach_run; [|exact Hrun]. constructor.
  - left. split; [exact Hm|].
    rewrite (Post_begin_not_POST s fresh req Hm) in *.
    split; [now apply (idle_run s _ sched) | reflexivity].
Qed.

Lemma at_select s req sched c partitionKey :
  run s sched (Post_begin s fresh req) = Some c ->
  handler c = HSelect partitionKey ->
  exists transforms,
    validator s live req = (partitionKey, transforms, None)
    /\ Reach s partitionKey (bodyDecoder req)
         (With (With metricfamily.empty transforms) (transformer s)) c.
Proof.
  intros Hrun Hh.
  destruct (Post_runs s req sched c Hrun)
    as [(_ & (Hr & _) & _)|[(_ & (Hr & _) & _)|(_ & pk & ts & Hv & HR)]];
    try congruence.
  assert (pk = partitionKey) as -> by (destruct HR; simpl in Hh; congruence).
  exists ts. now split.
Qed.

End Post.

Section Claims.
Context `{Libraries}.

(** C7. A request whose method is not POST is answered 405 with an empty body,
    and nothing else happens: in every run the trace stays empty (no call of
    the validator, of Decode, which is what reads the body, or of
    WriteMetrics) and no goroutine is started. *)
Theorem other_methods_get_405_and_nothing_runs (s : Server) (req : Request) :
  Method req <> "POST" ->
  let c0 := Post_begin s fresh req in
  handler c0 = HReturned
  /\ sent (w c0) = StatusMethodNotAllowed
  /\ body (w c0) = ""
  /\ forall sched c, run s sched c0 = Some c ->
       handler c = HReturned /\ goroutine c = GNone
       /\ w c = w c0 /\ trace c = [].
Proof.
  intros Hm c0. subst c0.
  rewrite (Post_begin_not_POST s fresh req Hm).
  split; [reflexivity|]. split; [reflexivity|]. split; [reflexivity|].
  intros sched c Hrun.
  apply idle_run in Hrun; [|reflexivity|reflexivity].
  destruct Hrun as (Hh & Hg & Hw & Ht). auto.
Qed.

(** C5. When the validator returns an error for a POST request, the answer is
    500 with the validator's message, the handler returns without starting the
    goroutine, and in every run the trace holds no call of Decode and none of
    WriteMetrics. *)
Theorem validator_error_gets_500_and_no_pipeline
  (s : Server) (req : Request) (partitionKey : string)
  (transforms : Transformer) (err : error) :
  Method req = "POST" ->
  validator s live req = (partitionKey, transforms, Some err) ->
  let c0 := Post_begin s fresh req in
  handler c0 = HReturned
  /\ goroutine c0 = GNone
  /\ sent (w c0) = StatusInternalServerError
  /\ body (w c0) = (error_Error err ++ newline)%string
  /\ forall sched c, run s sched c0 = Some c ->
       goroutine c = GNone /\ w c = w c0
       /\ existsb isDecode (trace c) = false
       /\ existsb isWriteMetrics (trace c) = false.
Proof.
  intros Hm Hv c0. subst c0.
  rewrite (Post_begin_invalid s fresh req partitionKey transforms err Hm Hv).
  split; [reflexivity|]. split; [reflexivity|]. split; [reflexivity|].
  split; [reflexivity|].
  intros sched c Hrun.
  apply idle_run in Hrun; [|reflexivity|reflexivity].
  destruct Hrun as (Hh & Hg & Hw & Ht). rewrite Ht. auto.
Qed.

(** C8. The chain the goroutine is started with holds the validator's pass
    first and the server's process-wide pass second; applied to a family it
    runs the validator's pass and then, on the result, the process-wide pass.
    decodeAndStoreMetrics applies exactly this composition to the decoded
    batch: on a body whose stream ends cleanly, the goroutine's outcome and the
    batch handed to WriteMetrics are what the filter makes of the batch with
    the validator's pass followed by the process-wide pass. *)
Theorem chain_is_request_passes_then_process_wide
  (s : Server) (req : Request) (partitionKey : string)
  (transforms : Transformer) :
  Method req = "POST" ->
  validator s live req = (partitionKey, transforms, None) ->
  exists decoder t,
    goroutine (Post_begin s fresh req) = GRunning partitionKey decoder t
    /\ transformers t = [transforms; transformer s]
    /\ (forall family,
          Transform t family = andThen transforms (transformer s) family)
    /\ (forall families,
          Filter families (Transform t) =
          Filter families (andThen transforms (transformer s)))
    /\ forall fams tail c,
         decoder = map Yield fams ++ tail ->
         endsCleanly tail = true ->
         goroutine c = GRunning partitionKey decoder t ->
         exists c',
           step s AGoroutine c = Some c'
           /\ match
                Filter (fams ++ [clientmodel.zero])
                  (andThen transforms (transformer s))
              with
              | (_, Some err) =>
                  goroutine c' = GSending (Some err)
                  /\ trace c' =
                     trace c ++ repeat EvDecode (List.length fams + 1)
              | (slots, None) =>
                  let pm := {| PartitionKey := partitionKey;
                               Families := Pack slots |} in
                  goroutine c' = GSending (store s (done c) pm)
                  /\ trace c' =
                     trace c ++ repeat EvDecode (List.length fams + 1)
                     ++ [EvWriteMetrics pm]
              end.
Proof.
  intros Hm Hv.
  rewrite (Post_begin_valid s fresh req partitionKey transforms Hm Hv).
  eexists _, _. split; [reflexivity|]. split; [reflexivity|].
  split; [apply Transform_two|].
  split; [intros families; apply Filter_ext, Transform_two|].
  intros fams tail c Hd Hc Hg.
  unfold step. rewrite Hg, Hd.
  rewrite (decodeAndStoreMetrics_clean s (done c) partitionKey _ fams tail Hc).
  unfold filterPackStore.
  rewrite (Filter_ext _ (andThen transforms (transformer s)) _
             (Transform_two transforms (transformer s))).
  replace (List.length fams + 1) with (S (List.length fams)) by lia.
  destruct (Filter (fams ++ [clientmodel.zero])
              (andThen transforms (transformer s))) as [slots [err|]];
    eexists; (split; [reflexivity|]); cbn [goroutine trace];
    rewrite ?app_nil_r; split; reflexivity.
Qed.

(** C2. Whenever the handler receives a non-nil error from the goroutine (the
    error decodeAndStoreMetrics returned, which is the storage result whenever
    decoding and filtering went through): if it equals the write-limit error of
    the request's partition key P, the answer is 429 and its body is that
    error's message, in which P occurs; for any other error the answer is 500
    with the error's message. *)
Theorem write_limit_gets_429_other_errors_500
  (s : Server) (req : Request) (sched : list Action) (c c' : Config)
  (partitionKey : string) (e : error) :
  run s sched (Post_begin s fresh req) = Some c ->
  handler c = HSelect partitionKey ->
  goroutine c = GSending (Some e) ->
  step s AReceive c = Some c' ->
  fst (fst (validator s live req)) = partitionKey
  /\ (exists ctx evs,
        decodeAndStoreMetrics s ctx partitionKey (bodyDecoder req)
          (Transform
             (With (With metricfamily.empty (snd (fst (validator s live req))))
                (transformer s)))
        = Some (evs, Some e))
  /\ handler c' = HReturned
  /\ body (w c') = (error_Error e ++ newline)%string
  /\ (e = ErrWriteLimitReached partitionKey ->
        sent (w c') = StatusTooManyRequests
        /\ contains (body (w c')) partitionKey = true)
  /\ (e <> ErrWriteLimitReached partitionKey ->
        sent (w c') = StatusInternalServerError).
Proof.
  intros Hrun Hh Hg Hstep.
  destruct (at_select s req sched c partitionKey Hrun Hh) as (ts & Hv & HR).
  rewrite Hv. split; [reflexivity|].
  destruct HR as [dn|dn ctx evs err Hret| | | |]; simpl in Hh, Hg;
    try discriminate.
  inversion Hg; subst err. simpl in Hstep. inversion Hstep; subst c'. simpl.
  split; [now exists ctx, evs|]. split; [reflexivity|].
  destruct (error_eqb_spec e (ErrWriteLimitReached partitionKey)) as [->|Hne].
  - split; [reflexivity|]. split; [|congruence].
    intros _. split; [reflexivity|].
    change (contains
              ("write limit reached for key " ++ (partitionKey ++ newline))%string
              partitionKey = true).
    apply contains_later, contains_here.
  - split; [reflexivity|]. split; [congruence|]. intros _. reflexivity.
Qed.

(** What decodeAndStoreMetrics returns once decoding and filtering went
    through is the answer of the storage layer. *)
Lemma stored_outcome s ctx partitionKey families t slots :
  Filter families t = (slots, None) ->
  filterPackStore s ctx partitionKey families t =
  ([EvWriteMetrics {| PartitionKey := partitionKey; Families := Pack slots |}],
   store s ctx {| PartitionKey := partitionKey; Families := Pack slots |}).
Proof. intros Hf. unfold filterPackStore. now rewrite Hf. Qed.

(** C4, as the code has it. In every run in which the select takes its
    ctx.Done() case, the context was done, the handler answered 500 with the
    body "Timeout while storing metrics" and returned in that same step,
    leaving the goroutine where it was, running or at its send; the answer
    never changes afterwards and the outcome is never received. While the
    context is done and the goroutine has not reached its send, the ctx.Done()
    case is enabled and it is the only case the select can take. *)
Theorem timeout_case_gets_500_without_waiting (s : Server) (req : Request) :
  (forall sched c,
     run s sched (Post_begin s fresh req) = Some c ->
     In ATimeout sched ->
     handler c = HReturned
     /\ sent (w c) = StatusInternalServerError
     /\ body (w c) = ("Timeout while storing metrics" ++ newline)%string
     /\ goroutine c <> GExited
     /\ exists before after c1 c2,
          sched = before ++ ATimeout :: after
          /\ run s before (Post_begin s fresh req) = Some c1
          /\ done c1 = true
          /\ step s ATimeout c1 = Some c2
          /\ handler c2 = HReturned
          /\ goroutine c2 = goroutine c1
          /\ w c2 = w c)
  /\ (forall sched c partitionKey,
        run s sched (Post_begin s fresh req) = Some c ->
        handler c = HSelect partitionKey ->
        done c = true ->
        (forall err, goroutine c <> GSending err) ->
        step s AReceive c = None
        /\ exists c', step s ATimeout c = Some c').
Proof.
  split.
  - intros sched c Hrun Hin.
    apply in_split in Hin. destruct Hin as (before & after & ->).
    rewrite run_app in Hrun.
    destruct (run s before (Post_begin s fresh req)) as [c1|] eqn:Hrun1;
      [|discriminate].
    cbn [run] in Hrun.
    destruct (step s ATimeout c1) as [c2|] eqn:Hstep; [|discriminate].
    assert (Hsel : exists pk, handler c1 = HSelect pk).
    { unfold step in Hstep. destruct (handler c1) as [pk|]; [eauto|discriminate]. }
    destruct Hsel as (pk & Hh1).
    destruct (at_select s req before c1 pk Hrun1 Hh1) as (ts & Hv & HR).
    assert (Hc2 : done c1 = true /\ handler c2 = HReturned
                  /\ goroutine c2 = goroutine c1 /\ w c2 = timeoutResponse
                  /\ goroutine c2 <> GExited).
    { destruct HR as [dn|dn ctx evs err Hret| | | |]; simpl in Hh1;
        try discriminate; simpl in Hstep; destruct dn; try discriminate;
        inversion Hstep; subst c2; repeat split; discriminate. }
    destruct Hc2 as (Hd1 & Hh2 & Hg2 & Hw2 & Hne2).
    destruct (abandoned_run s c2 after c Hh2 Hne2 Hrun) as (Hh & Hw & Hne).
    split; [exact Hh|]. rewrite Hw, Hw2.
    split; [reflexivity|]. split; [reflexivity|]. split; [exact Hne|].
    exists before, after, c1, c2. rewrite <- Hw2. auto 10.
  - intros sched c pk Hrun Hh Hd Hno.
    destruct (at_select s req sched c pk Hrun Hh) as (ts & Hv & HR).
    destruct HR as [dn|dn ctx evs err Hret| | | |]; simpl in Hh, Hd;
      try discriminate; subst dn.
    + split; [reflexivity|]. eexists. reflexivity.
    + now elim (Hno err).
Qed.

(** C6. For every POST request that passes validation there is a run in which
    the deadline passes and the handler times out before the goroutine
    finishes: the goroutine then reaches its send on the unbuffered channel
    and stays there, because no step is enabled any more. The same holds in
    every run at whose end the handler has returned while the goroutine is in
    its send. *)
Theorem send_after_timeout_blocks_forever
  (s : Server) (req : Request) (partitionKey : string)
  (transforms : Transformer) :
  Method req = "POST" ->
  validator s live req = (partitionKey, transforms, None) ->
  (exists c err,
     run s [ADeadline; ATimeout; AGoroutine] (Post_begin s fresh req) = Some c
     /\ handler c = HReturned
     /\ goroutine c = GSending err)
  /\ forall sched c err,
       run s sched (Post_begin s fresh req) = Some c ->
       handler c = HReturned -> goroutine c = GSending err ->
       forall l, step s l c = None.
Proof.
  intros Hm Hv. split.
  - rewrite (Post_begin_valid s fresh req partitionKey transforms Hm Hv).
    simpl.
    destruct (decodeAndStoreMetrics_returns s true partitionKey
                (bodyDecoder req)
                (Transform
                   (With (With metricfamily.empty transforms) (transformer s))))
      as (evs & err & Hret).
    rewrite Hret. eexists _, err. repeat split.
  - intros sched c err Hrun Hh Hg l.
    destruct (Post_runs s req sched c Hrun)
      as [(_ & (_ & Hn & _) & _)|[(_ & (_ & Hn & _) & _)|(_ & pk & ts & _ & HR)]];
      try congruence.
    destruct HR; simpl in Hh, Hg; try discriminate; destruct l; reflexivity.
Qed.

(** C9, as the code has it. The handler closes the request body exactly once
    on every exit path of a POST request (validation failure, timeout, every
    outcome of the pipeline) and not at all when it rejects the method. *)
Theorem body_closed_once_unless_method_rejected
  (s : Server) (req : Request) (sched : list Action) (c : Config) :
  run s sched (Post_begin s fresh req) = Some c ->
  handler c = HReturned ->
  bodyCloses c = if String.eqb (Method req) "POST" then 1 else 0.
Proof.
  intros Hrun Hh. unfold bodyCloses.
  destruct (Post_runs s req sched c Hrun)
    as [(Hm & (_ & _ & _ & Ht) & Ht0)
       |[(Hm & (_ & _ & _ & Ht) & Ht0 & _)|(Hm & pk & ts & _ & HR)]].
  - apply String.eqb_neq in Hm. now rewrite Hm, Ht, Ht0.
  - now rewrite Hm, Ht, Ht0.
  - rewrite Hm. simpl.
    destruct HR
      as [dn|dn ctx evs err Hret| |evs err Hret|ctx evs err Hret|ctx evs err Hret];
      simpl in Hh; try discriminate; cbn [trace];
      try (pose proof (pipeline_never_closes evs
             (decodeAndStoreMetrics_events _ _ _ _ _ _ _ Hret)) as Hnc);
      rewrite ?filter_app, ?length_app, ?Hnc; reflexivity.
Qed.

End Claims.

(** ** The theorems at concrete requests *)

Lemma other_methods_get_405_and_nothing_runs_witness :
  sent (w (@Post_begin exampleLibraries noStore fresh (exampleRequest "GET")))
  = StatusMethodNotAllowed.
Proof.
  exact (proj1 (proj2 (@other_methods_get_405_and_nothing_runs
                         exampleLibraries noStore (exampleRequest "GET")
                         ltac:(simpl; discriminate)))).
Defined.

Lemma validator_error_gets_500_and_no_pipeline_witness :
  body (w (@Post_begin exampleLibraries rejecting fresh (exampleRequest "POST")))
  = ("unauthorized" ++ newline)%string.
Proof.
  exact (proj1 (proj2 (proj2 (proj2
           (@validator_error_gets_500_and_no_pipeline
              exampleLibraries rejecting (exampleRequest "POST") ""
              (fun f => (f, true, None)) (errorOther "unauthorized")
              eq_refl eq_refl))))).
Defined.

Lemma chain_is_request_passes_then_process_wide_witness :
  exists c',
    run ordered [AGoroutine]
      (@Post_begin exampleLibraries ordered fresh (exampleRequest "POST"))
    = Some c'
    /\ trace c' =
       [EvValidate; EvDecode; EvDecode;
        EvWriteMetrics
          {| PartitionKey := "tenant";
             Families :=
               [{| Name := Some "up"; Help := Some "checked";
                   Type_ := Some GAUGE;
                   Metrics := [{| Label := []; TimestampMs := 0 |}] |};
                {| Name := None; Help := Some "checked"; Type_ := None;
                   Metrics := [] |}] |}].
Proof.
  destruct (@chain_is_request_passes_then_process_wide
              exampleLibraries ordered (exampleRequest "POST") "tenant"
              markChecked eq_refl eq_refl)
    as (decoder & t & Hg & _ & _ & _ & Hstep).
  inversion Hg; subst decoder t.
  destruct (Hstep [family "up"] []
              (@Post_begin exampleLibraries ordered fresh
                 (exampleRequest "POST"))
              eq_refl eq_refl eq_refl)
    as (c' & Hc' & _ & Htrace).
  exists c'. split; [cbn [run]; now rewrite Hc' | exact Htrace].
Defined.

(** In the other order the same batch would be emptied: the marks are set
    only after the families were looked at. *)
Example passes_do_not_commute :
  Filter [family "up"; clientmodel.zero] (andThen onlyChecked markChecked)
  = ([None; None], None)
  /\ Filter [family "up"; clientmodel.zero] (andThen markChecked onlyChecked)
     = ([Some {| Name := Some "up"; Help := Some "checked";
                 Type_ := Some GAUGE;
                 Metrics := [{| Label := []; TimestampMs := 0 |}] |};
         Some {| Name := None; Help := Some "checked"; Type_ := None;
                 Metrics := [] |}], None).
Proof. split; reflexivity. Qed.

Lemma write_limit_gets_429_other_errors_500_witness :
  exists c',
    run limitedStore [AGoroutine; AReceive]
      (@Post_begin exampleLibraries limitedStore fresh (exampleRequest "POST"))
    = Some c'
    /\ sent (w c') = StatusTooManyRequests
    /\ contains (body (w c')) "tenant" = true.
Proof.
  pose proof (@write_limit_gets_429_other_errors_500
                exampleLibraries limitedStore (exampleRequest "POST")
                [AGoroutine] _ _ "tenant" (ErrWriteLimitReached "tenant")
                eq_refl eq_refl eq_refl eq_refl)
    as (_ & _ & _ & _ & Hlimit & _).
  eexists. split; [reflexivity | exact (Hlimit eq_refl)].
Defined.

Lemma timeout_case_gets_500_without_waiting_witness :
  exists c,
    run noStore [ADeadline; AGoroutine; ATimeout]
      (@Post_begin exampleLibraries noStore fresh (exampleRequest "POST"))
    = Some c
    /\ sent (w c) = StatusInternalServerError
    /\ body (w c) = ("Timeout while storing metrics" ++ newline)%string.
Proof.
  eexists. split; [reflexivity|].
  destruct (proj1 (@timeout_case_gets_500_without_waiting
                     exampleLibraries noStore (exampleRequest "POST"))
              [ADeadline; AGoroutine; ATimeout] _ eq_refl
              ltac:(simpl; auto))
    as (_ & Hsent & Hbody & _).
  split; [exact Hsent | exact Hbody].
Defined.

(** C4, as the claim states it, fails: the deadline passes first, the
    goroutine then offers its outcome, and the select, with both cases ready,
    takes the outcome; the handler answers 200. *)
Lemma deadline_first_yet_outcome_answered :
  ~ (forall (L : Libraries) (s : Server) (req : Request)
       (sched : list Action) (c : Config),
       run s sched (@Post_begin L s fresh req) = Some c ->
       handler c = HReturned ->
       deadlineFirst sched = true ->
       sent (w c) = StatusInternalServerError
       /\ body (w c) = ("Timeout while storing metrics" ++ newline)%string).
Proof.
  intros Hall.
  destruct (Hall exampleLibraries noStore (exampleRequest "POST")
              [ADeadline; AGoroutine; AReceive] _ eq_refl eq_refl eq_refl)
    as (Hsent & _).
  vm_compute in Hsent. discriminate.
Qed.

Lemma send_after_timeout_blocks_forever_witness :
  exists c err,
    run noStore [ADeadline; ATimeout; AGoroutine]
      (@Post_begin exampleLibraries noStore fresh (exampleRequest "POST"))
    = Some c
    /\ handler c = HReturned
    /\ goroutine c = GSending err.
Proof.
  exact (proj1 (@send_after_timeout_blocks_forever
                  exampleLibraries noStore (exampleRequest "POST") "tenant"
                  (fun f => (f, true, None)) eq_refl eq_refl)).
Defined.

Lemma body_closed_once_unless_method_rejected_witness :
  exists c,
    run noStore [AGoroutine; AReceive]
      (@Post_begin exampleLibraries noStore fresh (exampleRequest "POST"))
    = Some c
    /\ bodyCloses c = 1.
Proof.
  eexists. split; [reflexivity|].
  exact (@body_closed_once_unless_method_rejected
           exampleLibraries noStore (exampleRequest "POST")
           [AGoroutine; AReceive] _ eq_refl eq_refl).
Defined.

(** C9, as the claim states it, fails: a GET request is answered by a handler
    that returns without ever closing the body. *)
Lemma body_left_open_when_method_rejected :
  ~ (forall (L : Libraries) (s : Server) (req : Request)
       (sched : list Action) (c : Config),
       run s sched (@Post_begin L s fresh req) = Some c ->
       handler c = HReturned ->
       1 <= bodyCloses c).
Proof.
  intros Hall.
  specialize (Hall exampleLibraries noStore (exampleRequest "GET") [] _
                eq_refl eq_refl).
  vm_compute in Hall. lia.
Qed.

(** A request that goes through: one family in the body, nothing filtered, the
    write accepted. The handler writes nothing, so the client sees 200 with an
    empty body; storage was handed the family and the trailing slot. *)
Example post_accepted :
  exists c,
    run noStore [AGoroutine; AReceive]
      (@Post_begin exampleLibraries noStore fresh (exampleRequest "POST"))
    = Some c
    /\ sent (w c) = StatusOK
    /\ body (w c) = ""
    /\ trace c =
       [EvValidate; EvDecode; EvDecode;
        EvWriteMetrics
          {| PartitionKey := "tenant";
             Families := [family "up"; clientmodel.zero] |};
        EvCancel; EvBodyClose].
Proof. eexists. repeat split. Qed.

(** ** What the pipeline and the handler do beyond the cases above *)

Lemma decodeLoop_decodes fuel : forall decoder families,
  exists n, fst (decodeLoop fuel decoder families) = repeat EvDecode n.
Proof.
  induction fuel as [|fuel IH]; intros decoder families; [now exists 0|].
  rewrite decodeLoop_round.
  destruct (Decode decoder clientmodel.zero) as [[d' f] [e|]].
  - exists 1. now destruct (error_eqb e io_EOF).
  - destruct (IH d' (families ++ [f])) as (n & Hn).
    destruct (decodeLoop fuel d' (families ++ [f])) as [evs exit].
    exists (S n). simpl in *. now rewrite Hn.
Qed.

(** The events of one call: the calls of Decode and then, if the call got that
    far, the one write, whose answer is what the call returns. *)
Lemma decodeAndStoreMetrics_shape s ctx partitionKey decoder t evs err :
  decodeAndStoreMetrics s ctx partitionKey decoder t = Some (evs, err) ->
  exists n,
    (evs = repeat EvDecode n /\ err <> None)
    \/ exists fams,
         evs = repeat EvDecode n
               ++ [EvWriteMetrics
                     {| PartitionKey := partitionKey; Families := fams |}]
         /\ err = store s ctx
                    {| PartitionKey := partitionKey; Families := fams |}.
Proof.
  unfold decodeAndStoreMetrics, filterPackStore.
  destruct (decodeLoop_decodes (S (List.length decoder)) decoder []) as (n & Hn).
  destruct (decodeLoop (S (List.length decoder)) decoder []) as [evs0 [fams|e|]];
    simpl in Hn; subst evs0; intros E; try discriminate; exists n.
  - destruct (Filter fams t) as [slots [e|]]; inversion E; subst.
    + left. rewrite app_nil_r. split; [reflexivity | discriminate].
    + right. now exists (Pack slots).
  - inversion E; subst. left. split; [reflexivity | discriminate].
Qed.

Lemma filter_decodes (kind : Event -> bool) n :
  kind EvDecode = false -> filter kind (repeat EvDecode n) = [].
Proof.
  intros Hk. induction n as [|n IH]; simpl; [reflexivity|]. now rewrite Hk.
Qed.

Lemma write_not_among_decodes pm n : ~ In (EvWriteMetrics pm) (repeat EvDecode n).
Proof. intros Hin. apply repeat_spec in Hin. discriminate. Qed.

(** Counts the events of a kind in a trace built by appending. *)
Ltac count_events :=
  unfold calls; cbn [trace];
  rewrite ?filter_app, ?length_app, ?filter_decodes by reflexivity;
  simpl; try reflexivity; try lia.

Section Extras.
Context `{Libraries}.

(** In every run of Post, at whatever point: the validator has been called once
    for a POST request and never otherwise, WriteMetrics has been called at
    most once, and every batch it was given carries the partition key the
    validator returned. *)
Theorem collaborators_called_at_most_once
  (s : Server) (req : Request) (sched : list Action) (c : Config) :
  run s sched (Post_begin s fresh req) = Some c ->
  calls isValidate c = (if String.eqb (Method req) "POST" then 1 else 0)
  /\ calls isWriteMetrics c <= 1
  /\ forall pm, In (EvWriteMetrics pm) (trace c) ->
       PartitionKey pm = fst (fst (validator s live req)).
Proof.
  intros Hrun.
  destruct (Post_runs s req sched c Hrun)
    as [(Hm & (_ & _ & _ & Ht) & Ht0)
       |[(Hm & (_ & _ & _ & Ht) & Ht0 & _)|(Hm & pk & ts & Hv & HR)]].
  - apply String.eqb_neq in Hm. unfold calls. rewrite Hm, Ht, Ht0.
    repeat split; simpl; [lia | intros pm []].
  - unfold calls. rewrite Hm, Ht, Ht0.
    repeat split; simpl; [lia|]. intros pm Hin.
    repeat (destruct Hin as [Hin|Hin]; try discriminate). destruct Hin.
  - rewrite Hm, Hv. simpl fst.
    destruct HR
      as [dn|dn ctx evs err Hret| |evs err Hret|ctx evs err Hret|ctx evs err Hret];
      try (destruct (decodeAndStoreMetrics_shape _ _ _ _ _ _ _ Hret)
             as (n & [(-> & _)|(fams & -> & _)]));
      (split; [count_events|]); (split; [count_events|]);
      cbn [trace]; intros pm Hin; simpl in Hin;
      repeat (rewrite in_app_iff in Hin; simpl in Hin);
      repeat match goal with
        | Hin : _ \/ _ |- _ => destruct Hin as [Hin|Hin]
        | Hin : False |- _ => destruct Hin
        | Hin : In _ (repeat EvDecode _) |- _ =>
            now apply write_not_among_decodes in Hin
        | Hin : In _ [] |- _ => destruct Hin
        | Hin : _ = EvWriteMetrics _ |- _ =>
            first [discriminate Hin | inversion Hin; subst; reflexivity]
        end.
Qed.

(** When the goroutine offers nil, the handler writes nothing: the client gets
    200 with an empty body, the goroutine has exited and the deferred calls
    have run. *)
Theorem nil_outcome_gets_200_and_empty_body
  (s : Server) (req : Request) (sched : list Action) (c c' : Config)
  (partitionKey : string) :
  run s sched (Post_begin s fresh req) = Some c ->
  handler c = HSelect partitionKey ->
  goroutine c = GSending None ->
  step s AReceive c = Some c' ->
  handler c' = HReturned
  /\ goroutine c' = GExited
  /\ status (w c') = None
  /\ sent (w c') = StatusOK
  /\ body (w c') = ""
  /\ trace c' = trace c ++ [EvCancel; EvBodyClose].
Proof.
  intros Hrun Hh Hg Hstep.
  destruct (at_select s req sched c partitionKey Hrun Hh) as (ts & Hv & HR).
  destruct HR as [dn|dn ctx evs err Hret| | | |]; simpl in Hh, Hg;
    try discriminate.
  inversion Hg; subst err. simpl in Hstep. inversion Hstep; subst c'.
  repeat split.
Qed.

(** An answer of 200 means the write happened and was accepted: whenever the
    handler has returned and the client sees 200, the request was a POST, the
    goroutine has delivered its outcome and exited, the trace is the
    validation, the calls of Decode, one WriteMetrics under the validator's
    partition key and the deferred calls, and the storage layer answered nil
    to that write. *)
Theorem status_200_means_stored
  (s : Server) (req : Request) (sched : list Action) (c : Config) :
  run s sched (Post_begin s fresh req) = Some c ->
  handler c = HReturned ->
  sent (w c) = StatusOK ->
  Method req = "POST"
  /\ goroutine c = GExited
  /\ body (w c) = ""
  /\ exists ctx n fams,
       trace c =
         [EvValidate] ++ repeat EvDecode n
         ++ [EvWriteMetrics
               {| PartitionKey := fst (fst (validator s live req));
                  Families := fams |};
             EvCancel; EvBodyClose]
       /\ store s ctx {| PartitionKey := fst (fst (validator s live req));
                         Families := fams |} = None.
Proof.
  intros Hrun Hh Hs.
  destruct (Post_runs s req sched c Hrun)
    as [(Hm & (_ & _ & Hw & _) & _)
       |[(Hm & (_ & _ & Hw & _) & _ & e & He)|(Hm & pk & ts & Hv & HR)]].
  - rewrite (Post_begin_not_POST s fresh req Hm) in Hw.
    rewrite Hw in Hs. discriminate.
  - destruct (validator s live req) as [[pk ts] err] eqn:Hv.
    simpl in He. subst err.
    rewrite (Post_begin_invalid s fresh req pk ts e Hm Hv) in Hw.
    rewrite Hw in Hs. discriminate.
  - rewrite Hv. simpl fst. split; [exact Hm|].
    destruct HR
      as [dn|dn ctx evs err Hret| |evs err Hret|ctx evs err Hret|ctx evs err Hret];
      simpl in Hh, Hs; try discriminate.
    destruct err as [e|].
    + simpl in Hs.
      destruct (error_eqb e (ErrWriteLimitReached pk)); discriminate.
    + split; [reflexivity|]. split; [reflexivity|].
      destruct (decodeAndStoreMetrics_shape _ _ _ _ _ _ _ Hret)
        as (n & [(_ & Hne)|(fams & -> & Herr)]); [now elim Hne|].
      exists ctx, n, fams. split; [|now symmetry].
      cbn [trace]. now rewrite <- !app_assoc.
Qed.

(** Post answers with one of four statuses, and 405 exactly for the requests
    whose method is not POST. *)
Theorem answers_are_200_405_429_or_500
  (s : Server) (req : Request) (sched : list Action) (c : Config) :
  run s sched (Post_begin s fresh req) = Some c ->
  handler c = HReturned ->
  In (sent (w c))
     [StatusOK; StatusMethodNotAllowed; StatusTooManyRequests;
      StatusInternalServerError]
  /\ (sent (w c) = StatusMethodNotAllowed <-> Method req <> "POST").
Proof.
  intros Hrun Hh.
  destruct (Post_runs s req sched c Hrun)
    as [(Hm & (_ & _ & Hw & _) & _)
       |[(Hm & (_ & _ & Hw & _) & _ & e & He)|(Hm & pk & ts & Hv & HR)]].
  - rewrite (Post_begin_not_POST s fresh req Hm) in Hw. rewrite Hw.
    split; [simpl; auto 6 | split; [intros _; exact Hm | reflexivity]].
  - destruct (validator s live req) as [[pk ts] err] eqn:Hv.
    simpl in He. subst err.
    rewrite (Post_begin_invalid s fresh req pk ts e Hm Hv) in Hw. rewrite Hw.
    split; [simpl; auto 6|]. split; [discriminate | congruence].
  - assert (Hcases : sent (w c) = StatusOK \/ sent (w c) = StatusTooManyRequests
                     \/ sent (w c) = StatusInternalServerError).
    { destruct HR; simpl in Hh; try discriminate; try (now right; right).
      destruct err as [e|]; simpl; [|now left].
      destruct (error_eqb e (ErrWriteLimitReached pk)); simpl; auto 6. }
    split.
    + simpl. destruct Hcases as [E|[E|E]]; rewrite E; simpl; auto 6.
    + split; [|congruence]. intros E.
      destruct Hcases as [E'|[E'|E']]; rewrite E' in E; discriminate.
Qed.


(** When Post has returned while its goroutine is still running or waiting in
    its send, the answer was the timeout answer and the timeout was logged
    once; when the goroutine has exited or was never started, nothing was
    logged. *)
Theorem unfinished_goroutine_means_timeout
  (s : Server) (req : Request) (sched : list Action) (c : Config) :
  run s sched (Post_begin s fresh req) = Some c ->
  handler c = HReturned ->
  match goroutine c with
  | GNone | GExited => calls isLog c = 0
  | GRunning _ _ _ | GSending _ =>
      w c = timeoutResponse /\ calls isLog c = 1 /\ In timeoutLog (trace c)
  end.
Proof.
  intros Hrun Hh.
  destruct (Post_runs s req sched c Hrun)
    as [(Hm & (_ & Hg & _ & Ht) & Ht0)
       |[(Hm & (_ & Hg & _ & Ht) & Ht0 & _)|(Hm & pk & ts & Hv & HR)]].
  - rewrite Hg. unfold calls. now rewrite Ht, Ht0.
  - rewrite Hg. unfold calls. now rewrite Ht, Ht0.
  - destruct HR
      as [dn|dn ctx evs err Hret| |evs err Hret|ctx evs err Hret|ctx evs err Hret];
      simpl in Hh; try discriminate;
      try (destruct (decodeAndStoreMetrics_shape _ _ _ _ _ _ _ Hret)
             as (n & [(-> & _)|(fams & -> & _)]));
      cbn [goroutine];
      try (split; [reflexivity|]; split; [count_events|]);
      try count_events;
      cbn [trace]; rewrite ?in_app_iff; simpl; tauto.
Qed.

(** As long as the handler waits in its select, the outcome can still reach
    it: in at most two steps the goroutine finishes its send, the handler
    answers according to the outcome and returns, and the goroutine exits. *)
Theorem waiting_handler_can_receive
  (s : Server) (req : Request) (sched : list Action) (c : Config)
  (partitionKey : string) :
  run s sched (Post_begin s fresh req) = Some c ->
  handler c = HSelect partitionKey ->
  exists sched' c' ctx evs err,
    run s sched' c = Some c'
    /\ List.length sched' <= 2
    /\ handler c' = HReturned
    /\ goroutine c' = GExited
    /\ decodeAndStoreMetrics s ctx partitionKey (bodyDecoder req)
         (Transform
            (With (With metricfamily.empty (snd (fst (validator s live req))))
               (transformer s)))
       = Some (evs, err)
    /\ w c' = respond partitionKey err fresh.
Proof.
  intros Hrun Hh.
  destruct (at_select s req sched c partitionKey Hrun Hh) as (ts & Hv & HR).
  rewrite Hv. simpl snd.
  destruct HR as [dn|dn ctx evs err Hret| | | |]; simpl in Hh;
    try discriminate.
  - destruct (decodeAndStoreMetrics_returns s dn partitionKey (bodyDecoder req)
                (Transform
                   (With (With metricfamily.empty ts) (transformer s))))
      as (evs & err & Hret).
    eexists [AGoroutine; AReceive], _, dn, evs, err.
    split; [simpl; rewrite Hret; reflexivity|].
    repeat split; [simpl; lia | exact Hret].
  - eexists [AReceive], _, ctx, evs, err.
    split; [reflexivity|]. repeat split; [simpl; lia | exact Hret].
Qed.

End Extras.

(** When the filter reports an error on the decoded batch, which includes the
    trailing slot, decodeAndStoreMetrics returns that error after the calls of
    Decode and does not call WriteMetrics. *)
Theorem filter_error_aborts_before_store
  (s : Server) (ctx : Context) (partitionKey : string) (t : Transformer)
  (fams : list MetricFamily) (tail : Decoder)
  (slots : list (option MetricFamily)) (err : error) :
  endsCleanly tail = true ->
  Filter (fams ++ [clientmodel.zero]) t = (slots, Some err) ->
  decodeAndStoreMetrics s ctx partitionKey (map Yield fams ++ tail) t =
  Some (repeat EvDecode (List.length fams + 1), Some err).
Proof.
  intros Hc Hf.
  rewrite (decodeAndStoreMetrics_clean s ctx partitionKey t fams tail Hc).
  unfold filterPackStore. rewrite Hf, app_nil_r.
  now replace (List.length fams + 1) with (S (List.length fams)) by lia.
Qed.

Lemma decodeLoop_first_error e rest d1 : forall families fuel1 fuel2,
  List.length (d1 ++ Fail e :: rest) < fuel1 ->
  List.length (d1 ++ [Fail e]) < fuel2 ->
  decodeLoop fuel1 (d1 ++ Fail e :: rest) families =
  decodeLoop fuel2 (d1 ++ [Fail e]) families.
Proof.
  induction d1 as [|st d1 IH]; intros families fuel1 fuel2 H1 H2;
    (destruct fuel1 as [|fuel1]; [simpl in H1; lia|]);
    (destruct fuel2 as [|fuel2]; [simpl in H2; lia|]);
    rewrite !decodeLoop_round.
  - reflexivity.
  - destruct st as [f|e']; simpl; [|reflexivity].
    simpl in H1, H2. rewrite (IH (families ++ [f]) fuel1 fuel2) by lia.
    reflexivity.
Qed.

(** The loop ends with the first call of Decode that reports an error: what
    the decoder would have produced after that call has no influence on what
    decodeAndStoreMetrics does or returns. *)
Theorem decoding_stops_at_first_error
  (s : Server) (ctx : Context) (partitionKey : string) (t : Transformer)
  (d1 rest : Decoder) (e : error) :
  decodeAndStoreMetrics s ctx partitionKey (d1 ++ Fail e :: rest) t =
  decodeAndStoreMetrics s ctx partitionKey (d1 ++ [Fail e]) t.
Proof.
  unfold decodeAndStoreMetrics.
  now rewrite (decodeLoop_first_error e rest d1 []
                 (S (List.length (d1 ++ Fail e :: rest)))
                 (S (List.length (d1 ++ [Fail e])))) by lia.
Qed.

(** ** The further theorems at concrete requests *)

Lemma collaborators_called_at_most_once_witness :
  exists c,
    run noStore [AGoroutine; AReceive]
      (@Post_begin exampleLibraries noStore fresh (exampleRequest "POST"))
    = Some c
    /\ calls isValidate c = 1
    /\ calls isWriteMetrics c <= 1.
Proof.
  eexists. split; [reflexivity|].
  destruct (@collaborators_called_at_most_once
              exampleLibraries noStore (exampleRequest "POST")
              [AGoroutine; AReceive] _ eq_refl)
    as (Hv & Hw & _).
  split; [exact Hv | exact Hw].
Defined.

Lemma nil_outcome_gets_200_and_empty_body_witness :
  exists c',
    run noStore [AGoroutine; AReceive]
      (@Post_begin exampleLibraries noStore fresh (exampleRequest "POST"))
    = Some c'
    /\ sent (w c') = StatusOK
    /\ body (w c') = "".
Proof.
  pose proof (@nil_outcome_gets_200_and_empty_body
                exampleLibraries noStore (exampleRequest "POST")
                [AGoroutine] _ _ "tenant" eq_refl eq_refl eq_refl eq_refl)
    as (_ & _ & _ & Hsent & Hbody & _).
  eexists. split; [reflexivity | split; [exact Hsent | exact Hbody]].
Defined.

Lemma status_200_means_stored_witness :
  exists c,
    run noStore [AGoroutine; AReceive]
      (@Post_begin exampleLibraries noStore fresh (exampleRequest "POST"))
    = Some c
    /\ goroutine c = GExited.
Proof.
  eexists. split; [reflexivity|].
  exact (proj1 (proj2 (@status_200_means_stored
                         exampleLibraries noStore (exampleRequest "POST")
                         [AGoroutine; AReceive] _ eq_refl eq_refl eq_refl))).
Defined.

Lemma answers_are_200_405_429_or_500_witness :
  exists c,
    run limitedStore [AGoroutine; AReceive]
      (@Post_begin exampleLibraries limitedStore fresh (exampleRequest "POST"))
    = Some c
    /\ In (sent (w c))
          [StatusOK; StatusMethodNotAllowed; StatusTooManyRequests;
           StatusInternalServerError].
Proof.
  eexists. split; [reflexivity|].
  exact (proj1 (@answers_are_200_405_429_or_500
                  exampleLibraries limitedStore (exampleRequest "POST")
                  [AGoroutine; AReceive] _ eq_refl eq_refl)).
Defined.


Lemma unfinished_goroutine_means_timeout_witness :
  exists c,
    run noStore [ADeadline; ATimeout]
      (@Post_begin exampleLibraries noStore fresh (exampleRequest "POST"))
    = Some c
    /\ w c = timeoutResponse
    /\ calls isLog c = 1.
Proof.
  eexists. split; [reflexivity|].
  destruct (@unfinished_goroutine_means_timeout
              exampleLibraries noStore (exampleRequest "POST")
              [ADeadline; ATimeout] _ eq_refl eq_refl)
    as (Hw & Hl & _).
  split; [exact Hw | exact Hl].
Defined.

Lemma waiting_handler_can_receive_witness :
  exists sched' c',
    run noStore (ADeadline :: sched')
      (@Post_begin exampleLibraries noStore fresh (exampleRequest "POST"))
    = Some c'
    /\ handler c' = HReturned
    /\ goroutine c' = GExited.
Proof.
  destruct (@waiting_handler_can_receive
              exampleLibraries noStore (exampleRequest "POST")
              [ADeadline] _ "tenant" eq_refl eq_refl)
    as (sched' & c' & _ & _ & _ & Hrun & _ & Hh & Hg & _).
  exists sched', c'. split; [exact Hrun | split; [exact Hh | exact Hg]].
Defined.

Lemma filter_error_aborts_before_store_witness :
  decodeAndStoreMetrics noStore false "tenant" [Yield (family "up")]
    (fun f => (f, false, Some (errorOther "rejected"))) =
  Some ([EvDecode; EvDecode], Some (errorOther "rejected")).
Proof.
  exact (filter_error_aborts_before_store noStore false "tenant"
           (fun f => (f, false, Some (errorOther "rejected")))
           [family "up"] [] _ (errorOther "rejected") eq_refl eq_refl).
Defined.

End server.

(** ** The instrumented round tripper *)

Module telemeter_http_facts.

Import prometheus promhttp telemeter_http.

Lemma not_registered n names :
  ~ In n names -> existsb (String.eqb n) names = false.
Proof.
  intros Hn. destruct (existsb (String.eqb n) names) eqn:E; [|reflexivity].
  apply existsb_exists in E. destruct E as (x & Hin & Hx).
  apply String.eqb_eq in Hx. subst x. contradiction.
Qed.

Lemma registered n names :
  existsb (String.eqb n) names = false -> ~ In n names.
Proof.
  intros E Hin. assert (existsb (String.eqb n) names = true); [|congruence].
  apply existsb_exists. exists n. split; [exact Hin | apply String.eqb_refl].
Qed.

Lemma extended_registry names :
  extended (Some names) =
  Some (((((names ++ ["client_in_flight_requests"])
           ++ ["client_api_requests_total"])
          ++ ["dns_duration_seconds"])
         ++ ["tls_duration_seconds"])
        ++ ["request_duration_seconds"]).
Proof.
  unfold extended, metricNames. simpl. now rewrite <- !app_assoc.
Qed.

(** Evaluates a call of the function up to the check of the client name,
    puts in what is known about the name, and evaluates the rest. *)
Ltac evaluate_with V :=
  cbv - [utf8.ValidString]; rewrite !V; vm_compute.

Ltac evaluate_in E V :=
  cbv - [utf8.ValidString] in E; rewrite !V in E; vm_compute in E.

(** Without a registerer the function returns for every client name that is
    valid UTF-8 and every round tripper. *)
Lemma unregistered_round_tripper clientName next :
  utf8.ValidString clientName = true ->
  exists rt, NewInstrumentedRoundTripper None clientName next = Ok (None, rt).
Proof.
  intros V. destruct next as [n [|]|i next|ic rt0]; evaluate_with V; eauto.
Qed.

(** A client name that is not valid UTF-8 is refused as a label value. *)
Lemma invalid_client_name clientName next :
  utf8.ValidString clientName = false ->
  exists why, NewInstrumentedRoundTripper None clientName next = Panic why.
Proof.
  intros V. destruct next as [n [|]|i next|ic rt0]; evaluate_with V; eauto.
Qed.

(** What a call that returns has done to the registry, and that the round
    tripper it returns does not depend on the registry. *)
Lemma returned_round_tripper reg clientName next reg' rt :
  NewInstrumentedRoundTripper reg clientName next = Ok (reg', rt) ->
  NewInstrumentedRoundTripper None clientName next = Ok (None, rt)
  /\ reg' = extended reg /\ free reg
  /\ utf8.ValidString clientName = true.
Proof.
  destruct (utf8.ValidString clientName) eqn:V.
  - destruct reg as [names|].
    + unfold NewInstrumentedRoundTripper at 1. cbn [NewVec Name bind].
      destruct (existsb (String.eqb "client_in_flight_requests") names) eqn:E1;
        cbn [NewVec Name bind]; [discriminate|].
      destruct (existsb (String.eqb "client_api_requests_total") _) eqn:E2;
        cbn [NewVec Name bind]; [discriminate|].
      destruct (existsb (String.eqb "dns_duration_seconds") _) eqn:E3;
        cbn [NewVec Name bind]; [discriminate|].
      destruct (existsb (String.eqb "tls_duration_seconds") _) eqn:E4;
        cbn [NewVec Name bind]; [discriminate|].
      destruct (existsb (String.eqb "request_duration_seconds") _) eqn:E5;
        cbn [NewVec Name bind]; [discriminate|].
      assert (Hfree : free (Some names)).
      { intros n Hn Hin. simpl in Hn.
        destruct Hn as [<-|[<-|[<-|[<-|[<-|[]]]]]].
        - now apply (registered _ _ E1).
        - apply (registered _ _ E2). apply in_or_app. now left.
        - apply (registered _ _ E3). repeat (apply in_or_app; left). exact Hin.
        - apply (registered _ _ E4). repeat (apply in_or_app; left). exact Hin.
        - apply (registered _ _ E5). repeat (apply in_or_app; left). exact Hin. }
      rewrite <- extended_registry.
      remember (extended (Some names)) as r eqn:Er.
      clear E1 E2 E3 E4 E5 Er.
      destruct next as [n [|]|i next|ic rt0]; evaluate_with V; intros E;
        inversion E; subst; repeat split; exact Hfree.
    + destruct next as [n [|]|i next|ic rt0]; evaluate_with V; intros E;
        inversion E; subst; repeat split.
  - intros E. exfalso.
    destruct reg as [names|].
    + revert E. unfold NewInstrumentedRoundTripper. cbn [NewVec Name bind].
      destruct (existsb (String.eqb "client_in_flight_requests") names);
        cbn [NewVec Name bind]; [discriminate|].
      destruct (existsb (String.eqb "client_api_requests_total") _);
        cbn [NewVec Name bind]; [discriminate|].
      destruct (existsb (String.eqb "dns_duration_seconds") _);
        cbn [NewVec Name bind]; [discriminate|].
      destruct (existsb (String.eqb "tls_duration_seconds") _);
        cbn [NewVec Name bind]; [discriminate|].
      destruct (existsb (String.eqb "request_duration_seconds") _);
        cbn [NewVec Name bind]; [discriminate|].
      generalize (Some
                    (((((names ++ ["client_in_flight_requests"])
                        ++ ["client_api_requests_total"])
                       ++ ["dns_duration_seconds"])
                      ++ ["tls_duration_seconds"])
                     ++ ["request_duration_seconds"])).
      intros r.
      destruct next as [n [|]|i next|ic rt0]; evaluate_with V; discriminate.
    + destruct (invalid_client_name clientName next V) as (why & Hw).
      congruence.
Qed.

Lemma free_name names extra n :
  free (Some names) -> In n metricNames -> ~ In n extra ->
  existsb (String.eqb n) (names ++ extra) = false.
Proof.
  intros Hfree Hn Hextra. apply not_registered. intros Hin.
  apply in_app_or in Hin. destruct Hin as [Hin|Hin]; [|contradiction].
  exact (Hfree n Hn Hin).
Qed.

(** With no registerer, or a registry that holds none of the five names, the
    function returns for every client name that is valid UTF-8. *)
Lemma registers_when_free reg clientName next :
  free reg ->
  utf8.ValidString clientName = true ->
  exists rt,
    NewInstrumentedRoundTripper reg clientName next = Ok (extended reg, rt)
    /\ NewInstrumentedRoundTripper None clientName next = Ok (None, rt).
Proof.
  intros Hfree V.
  destruct (unregistered_round_tripper clientName next V) as (rt & Hrt).
  exists rt. split; [|exact Hrt].
  destruct reg as [names|]; [|exact Hrt].
  unfold NewInstrumentedRoundTripper at 1. cbn [NewVec Name bind].
  rewrite (not_registered "client_in_flight_requests" names)
    by (apply Hfree; simpl; auto).
  cbn [NewVec Name bind].
  rewrite (free_name names _ "client_api_requests_total" Hfree)
    by (simpl; intuition discriminate).
  cbn [NewVec Name bind]. rewrite <- ?app_assoc.
  rewrite (free_name names _ "dns_duration_seconds" Hfree)
    by (simpl; intuition discriminate).
  cbn [NewVec Name bind]. rewrite <- ?app_assoc.
  rewrite (free_name names _ "tls_duration_seconds" Hfree)
    by (simpl; intuition discriminate).
  cbn [NewVec Name bind]. rewrite <- ?app_assoc.
  rewrite (free_name names _ "request_duration_seconds" Hfree)
    by (simpl; intuition discriminate).
  cbn [NewVec Name bind]. rewrite <- ?app_assoc.
  clear Hfree.
  destruct next as [n [|]|i next|ic rt0]; evaluate_in Hrt V; evaluate_with V;
    inversion Hrt; reflexivity.
Qed.

(** A client name that is not valid UTF-8 makes the function panic, with or
    without a registry. *)
Lemma panics_on_invalid_client_name reg clientName next :
  utf8.ValidString clientName = false ->
  exists why, NewInstrumentedRoundTripper reg clientName next = Panic why.
Proof.
  intros V.
  destruct (NewInstrumentedRoundTripper reg clientName next)
    as [[reg' rt]|why] eqn:E; [|eauto].
  apply returned_round_tripper in E. destruct E as (_ & _ & _ & V').
  congruence.
Qed.

(** Fresh registry or none, and a client name that is valid UTF-8: the
    function returns, for every round tripper, and a registry has gained
    exactly the five collectors, while the round tripper is the one returned
    without a registerer. A client name that is not valid UTF-8 is refused as
    the gauge's label value, and the function panics. *)
Theorem free_names_are_registered
  (reg : Registerer) (clientName : string) (next : RoundTripper) :
  (free reg ->
   utf8.ValidString clientName = true ->
   exists rt,
     NewInstrumentedRoundTripper reg clientName next = Ok (extended reg, rt)
     /\ NewInstrumentedRoundTripper None clientName next = Ok (None, rt))
  /\ (utf8.ValidString clientName = false ->
      exists why, NewInstrumentedRoundTripper reg clientName next = Panic why).
Proof.
  split.
  - apply registers_when_free.
  - apply panics_on_invalid_client_name.
Qed.

(** The metric names are fixed, so a registry that holds a collector of one of
    them makes the function panic, whatever the client name. *)
Theorem taken_name_panics
  (names : list string) (clientName : string) (next : RoundTripper)
  (n : string) :
  In n metricNames -> In n names ->
  exists why,
    NewInstrumentedRoundTripper (Some names) clientName next = Panic why.
Proof.
  intros Hn Hin.
  destruct (NewInstrumentedRoundTripper (Some names) clientName next)
    as [[reg' rt]|why] eqn:E; [|eauto].
  apply returned_round_tripper in E. destruct E as (_ & _ & Hfree & _).
  now elim (Hfree n Hn).
Qed.

(** A registry serves one instrumented round tripper: after a call that
    returned, every further call on the registry it left panics, also under
    another client name and around another round tripper. *)
Theorem second_call_on_a_registry_panics
  (names : list string) (clientName clientName' : string)
  (next next' : RoundTripper) (reg' : Registerer) (rt : RoundTripper) :
  NewInstrumentedRoundTripper (Some names) clientName next = Ok (reg', rt) ->
  exists why, NewInstrumentedRoundTripper reg' clientName' next' = Panic why.
Proof.
  intros E. apply returned_round_tripper in E. destruct E as (_ & -> & _).
  simpl extended.
  destruct (NewInstrumentedRoundTripper (Some (names ++ metricNames))
              clientName' next') as [[reg2 rt2]|why] eqn:E2; [|eauto].
  apply returned_round_tripper in E2. destruct E2 as (_ & _ & Hfree & _).
  exfalso. apply (Hfree "client_in_flight_requests"); [simpl; auto|].
  apply in_or_app. right. simpl. auto.
Qed.

(** The round tripper that is returned hands requests down to the transport
    [next] hands them to, and a call of CloseIdleConnections reaches the same
    transports as on [next]: it has the method exactly when [next] has it. *)
Theorem transport_and_idle_closer_pass_through
  (reg reg' : Registerer) (clientName : string) (next rt : RoundTripper) :
  NewInstrumentedRoundTripper reg clientName next = Ok (reg', rt) ->
  transport rt = transport next
  /\ closes rt = closes next
  /\ (idleConnectionCloser rt = None <-> idleConnectionCloser next = None).
Proof.
  intros E. apply returned_round_tripper in E. destruct E as (E & _ & _ & V).
  destruct next as [n [|]|i next|ic rt0]; evaluate_in E V; inversion E; subst;
    (split; [reflexivity|]); (split; [reflexivity|]); simpl;
    split; congruence.
Qed.

(** A request through the returned round tripper passes the in-flight gauge,
    the request counter, the trace and the duration histogram, in this order,
    before whatever [next] does. The gauge is the child for the client name,
    counter and histogram are left open for code and method only, the trace
    sets the two DNS and the two TLS hooks and no other, and each of them,
    whenever it fires, records one observation under the labels event and
    client and does not panic. *)
Theorem instruments_fit_their_labels
  (reg reg' : Registerer) (clientName : string) (next rt : RoundTripper) :
  NewInstrumentedRoundTripper reg clientName next = Ok (reg', rt) ->
  exists gauge counter it obs,
    instruments rt =
      InFlight gauge :: Counter counter :: Trace it :: Duration obs
      :: instruments next
    /\ gauge = {| metric := "client_in_flight_requests";
                  labels := [("client", clientName)] |}
    /\ open counter = ["code"; "method"]
    /\ open obs = ["method"]
    /\ hookNames it =
         ["DNSStart"; "DNSDone"; "TLSHandshakeStart"; "TLSHandshakeDone"]
    /\ forall t,
         fire it t =
         [Ok ({| metric := "dns_duration_seconds";
                 labels := [("event", "dns_start"); ("client", clientName)] |},
              t);
          Ok ({| metric := "dns_duration_seconds";
                 labels := [("event", "dns_done"); ("client", clientName)] |},
              t);
          Ok ({| metric := "tls_duration_seconds";
                 labels := [("event", "tls_handshake_start");
                            ("client", clientName)] |},
              t);
          Ok ({| metric := "tls_duration_seconds";
                 labels := [("event", "tls_handshake_done");
                            ("client", clientName)] |},
              t)].
Proof.
  intros E. apply returned_round_tripper in E. destruct E as (E & _ & _ & V).
  destruct next as [n [|]|i next|ic rt0]; evaluate_in E V; inversion E; subst;
    do 4 eexists; (split; [reflexivity|]); repeat split.
Qed.

Lemma free_names_are_registered_witness :
  exists rt,
    NewInstrumentedRoundTripper (Some ["go_goroutines"]) "forward" transport0
    = Ok (Some ("go_goroutines" :: metricNames), rt).
Proof.
  destruct (proj1 (free_names_are_registered (Some ["go_goroutines"])
                     "forward" transport0))
    as (rt & Hrt & _).
  - intros n Hn Hin. simpl in Hn, Hin. intuition (subst; discriminate).
  - reflexivity.
  - exists rt. exact Hrt.
Defined.

Lemma taken_name_panics_witness :
  exists why,
    NewInstrumentedRoundTripper (Some ["dns_duration_seconds"]) "forward"
      transport0 = Panic why.
Proof.
  apply (taken_name_panics ["dns_duration_seconds"] "forward" transport0
           "dns_duration_seconds"); simpl; auto.
Defined.

Lemma second_call_on_a_registry_panics_witness :
  exists why,
    NewInstrumentedRoundTripper (Some metricNames) "authorize"
      (Transport "other" false) = Panic why.
Proof.
  destruct (registers_when_free (Some []) "forward" transport0)
    as (rt & Hrt & _).
  - intros n _ [].
  - reflexivity.
  - exact (second_call_on_a_registry_panics [] "forward" "authorize"
             transport0 (Transport "other" false) _ rt Hrt).
Defined.

Lemma transport_and_idle_closer_pass_through_witness :
  exists rt,
    NewInstrumentedRoundTripper None "forward" transport0 = Ok (None, rt)
    /\ closes rt = ["http.DefaultTransport"].
Proof.
  destruct (unregistered_round_tripper "forward" transport0 eq_refl)
    as (rt & Hrt).
  exists rt. split; [exact Hrt|].
  exact (proj1 (proj2 (transport_and_idle_closer_pass_through
                         None None "forward" transport0 rt Hrt))).
Defined.

Lemma instruments_fit_their_labels_witness :
  exists rt gauge counter it obs,
    NewInstrumentedRoundTripper None "forward" transport0 = Ok (None, rt)
    /\ instruments rt =
       [InFlight gauge; Counter counter; Trace it; Duration obs].
Proof.
  destruct (unregistered_round_tripper "forward" transport0 eq_refl)
    as (rt & Hrt).
  destruct (instruments_fit_their_labels None None "forward" transport0 rt Hrt)
    as (gauge & counter & it & obs & Hi & _).
  exists rt, gauge, counter, it, obs. split; [exact Hrt | exact Hi].
Defined.

(** A client name of the single byte 0xFF is not valid UTF-8. *)
Example invalid_client_name_panics :
  exists why,
    NewInstrumentedRoundTripper None (String (ascii_of_N 255) "") transport0
    = Panic why.
Proof. vm_compute. eauto. Qed.

End telemeter_http_facts.
